(** * RFID + PIN access controller: a shallow embedding of
    [RFID_Authentication_System.ino] and the properties of its
    authentication loop.

    The sketch is one [loop()] function that polls the card reader, looks the
    card up in a static table, collects four keys under a deadline and
    compares them with the stored PIN.  Hardware calls are modelled as
    events: the inputs of one pass through [loop()] are given by an
    [Attempt] record (what the reader, the clock and the keypad answer), the
    outputs are the list of [Event]s the pass performs, in program order. *)

From Stdlib Require Import ZArith Ascii String Lia Bool.
From stdpp Require Import base list strings.

Local Open Scope string_scope.
Local Open Scope list_scope.

(** ** Constants of the sketch *)

Definition BUZZER_PIN : Z := 47.
Definition RED_LED : Z := 45.
Definition GREEN_LED : Z := 43.

Definition PIN_TIMEOUT : Z := 7500.
Definition ROWS : nat := 4.
Definition COLS : nat := 4.
Definition pinAmount : nat := 4.

Definition keys : list (list ascii) :=
  [ ["1"; "2"; "3"; "A"];
    ["4"; "5"; "6"; "B"];
    ["7"; "8"; "9"; "C"];
    ["*"; "0"; "#"; "D"] ]%char.

(** [NO_KEY] comes from the Keypad library ([const char NO_KEY = '\0']). *)
Definition NUL : ascii := Ascii.zero.
Definition NO_KEY : ascii := NUL.

(** ** User database *)

(** A C string literal stored in a [char] array: its characters followed by
    the terminating NUL. *)
Definition cstr (s : string) : list ascii := list_ascii_of_string s ++ [NUL].

Record User := mkUser {
  cardIDS : list Z;      (* byte cardIDS[4] *)
  pins : list ascii;     (* char pins[5]    *)
  name : string          (* char* name      *)
}.

Definition users : list User :=
  [ mkUser [0xB3; 0x29; 0xD7; 0x5]%Z (cstr "1234") "Alice";
    mkUser [0x5E; 0xEE; 0x9C; 0x4]%Z (cstr "ABCD") "Bob" ].

(** ** C library functions used by the sketch *)

(** [memcmp a b n]: difference of the first pair of differing bytes among
    the first [n], 0 when there is none.  Both arrays of the sketch hold
    four bytes; a read past the end of a list (which the sketch never does)
    ends the comparison. *)
Fixpoint memcmp (a b : list Z) (n : nat) : Z :=
  match n with
  | O => 0
  | S n' =>
      match a, b with
      | x :: a', y :: b' => if (x =? y)%Z then memcmp a' b' n' else (x - y)%Z
      | _, _ => 0%Z
      end
  end.

Definition char_code (c : ascii) : Z := Z.of_N (N_of_ascii c).

(** [strcmp a b]: walks both arrays until the characters differ or a NUL is
    reached in both.  Every array handed to it by the sketch is
    NUL-terminated; the end of a list is read as a NUL. *)
Fixpoint strcmp (a b : list ascii) : Z :=
  match a, b with
  | x :: a', y :: b' =>
      if Ascii.eqb x y
      then (if Ascii.eqb x NUL then 0%Z else strcmp a' b')
      else (char_code x - char_code y)%Z
  | x :: _, [] => char_code x
  | [], y :: _ => (- char_code y)%Z
  | [], [] => 0%Z
  end.

(** ** Events *)

Inductive Event :=
  (* setup *)
  | SerialBegin (baud : Z)
  | SpiBegin
  | PcdInit
  | LcdBegin (cols rows : Z)
  | PinModeOutput (pin : Z)
  (* serial log *)
  | SerialPrint (s : string)
  | SerialPrintln (s : string)
  | SerialPrintHex (b : Z)
  | SerialPrintChar (c : ascii)
  (* feedback sink *)
  | Tone (pin freq : Z)
  | NoTone (pin : Z)
  | Delay (ms : Z)
  | DigitalWrite (pin : Z) (level : bool)
  | LcdClear
  | LcdPrint (s : string)
  | LcdSetCursor (col row : Z)
  (* answers of the collaborators *)
  | IsNewCardPresent (b : bool)
  | ReadCardSerial (b : bool)
  | ReadMillis (t : Z)
  | GetKey (k : ascii).

(** One keypad poll of the PIN phase: what [millis()] reads at the deadline
    check and what [KEYPAD.getKey()] answers if it is then called. *)
Definition Poll : Type := Z * ascii.

(** The inputs of one pass through [loop()]. *)
Record Attempt := mkAttempt {
  cardPresent : bool;        (* RFID.PICC_IsNewCardPresent() *)
  readOk : bool;             (* RFID.PICC_ReadCardSerial()   *)
  uidSize : Z;               (* RFID.uid.size                *)
  uidByte : list Z;          (* RFID.uid.uidByte[10]         *)
  garbage : nat -> ascii;    (* what the uninitialised keypadEnters holds *)
  startMillis : Z;           (* millis() at the start of the PIN phase *)
  polls : list Poll
}.

Inductive Outcome :=
  | NoCard         (* first return: nothing on the reader *)
  | ReadFailed     (* second return: presence without a serial *)
  | RejectedCard
  | TimedOut
  | RejectedPin
  | Accepted
  | Pending        (* the poll script ended inside the PIN phase *)
  | Fault.         (* an index outside [users]; never produced, see [loop_no_fault] *)

(** ** The pieces of [loop()] *)

(** [unsigned long] is 32 bits wide on the AVR. *)
Definition ULONG_MOD : Z := 2 ^ 32.

(** [millis() - startTime] in unsigned 32-bit arithmetic. *)
Definition elapsed (startTime now : Z) : Z := ((now - startTime) mod ULONG_MOD)%Z.

Definition timed_out (startTime now : Z) : bool :=
  (PIN_TIMEOUT <? elapsed startTime now)%Z.

(** [scannedArray[i] = RFID.uid.uidByte[i]] for [i] in 0..3. *)
Definition scannedArray (a : Attempt) : list Z :=
  map (fun i => nth i (uidByte a) 0%Z) (seq 0 4).

(** The search loop [for (int i = 0; i < 2; i++)], [n] iterations left. *)
Fixpoint scan_users (scanned : list Z) (i n : nat) : Z :=
  match n with
  | O => (-1)%Z
  | S n' =>
      match users !! i with
      | Some u =>
          if (memcmp scanned (cardIDS u) 4 =? 0)%Z then Z.of_nat i
          else scan_users scanned (S i) n'
      | None => (-1)%Z
      end
  end.

Definition find_row (scanned : list Z) : Z := scan_users scanned 0 2.

Definition card_events (a : Attempt) : list Event :=
  [ IsNewCardPresent true; SerialPrintln "Card detected";
    ReadCardSerial true; SerialPrintln "Card read successfully!";
    Tone BUZZER_PIN 1800; Delay 100; NoTone BUZZER_PIN ]
  ++ flat_map (fun b => [SerialPrintHex b; SerialPrint " "]) (scannedArray a)
  ++ [ SerialPrintln "" ].

Definition unauthorized_feedback : list Event :=
  [ SerialPrintln "Unauthorized card";
    LcdClear; LcdPrint "UNAUTHORIZED";
    Tone BUZZER_PIN 200; DigitalWrite RED_LED true; Delay 800;
    NoTone BUZZER_PIN; Delay 2500; DigitalWrite RED_LED false; LcdClear ].

Definition prompt_events (u : User) : list Event :=
  [ SerialPrint "User "; SerialPrint (name u); SerialPrintln " prompted for PIN";
    LcdClear; LcdPrint "Hello "; LcdPrint (name u);
    LcdSetCursor 0 1; LcdPrint "Enter Pin: " ].

Definition timeout_feedback : list Event :=
  [ SerialPrintln "Session timeout";
    LcdClear; LcdPrint "SESSION EXPIRED";
    Tone BUZZER_PIN 200; DigitalWrite RED_LED true; Delay 800;
    NoTone BUZZER_PIN; Delay 1000; DigitalWrite RED_LED false; LcdClear ].

Definition key_feedback : list Event :=
  [ LcdPrint "*"; Tone BUZZER_PIN 1500; Delay 50; NoTone BUZZER_PIN ].

Definition denied_feedback : list Event :=
  [ SerialPrintln "Incorrect PIN - Access denied";
    LcdClear; LcdPrint "ACCESS DENIED";
    Tone BUZZER_PIN 200; DigitalWrite RED_LED true; Delay 800;
    NoTone BUZZER_PIN; Delay 700; DigitalWrite RED_LED false; Delay 1000;
    LcdClear ].

Definition granted_feedback : list Event :=
  [ SerialPrintln "Access granted";
    LcdClear; LcdPrint "ACCESS GRANTED";
    Tone BUZZER_PIN 1500; DigitalWrite GREEN_LED true; Delay 150;
    Tone BUZZER_PIN 2000; Delay 150; NoTone BUZZER_PIN; Delay 1000;
    DigitalWrite GREEN_LED false; LcdClear ].

(** What one keypad poll that passes the deadline check performs. *)
Definition poll_events (p : Poll) : list Event :=
  [ ReadMillis (fst p); GetKey (snd p) ]
  ++ (if Ascii.eqb (snd p) NO_KEY then [] else key_feedback).

Inductive PinResult :=
  | PinDone (buf : list ascii)
  | PinTimedOut
  | PinPending.

(** The PIN loop, entered at the head of the [while (key == NO_KEY)] of
    iteration [i] of the [for], with [key == NO_KEY].  Each turn reads the
    clock, returns on a passed deadline, and otherwise polls the keypad; a
    key ends the [while], is echoed and stored at [keypadEnters[i]], and the
    [for] goes on while [i + 1 < pinAmount]. *)
Fixpoint wait_keys (startTime : Z) (i : nat) (buf : list ascii)
    (ps : list Poll) : PinResult * list Event :=
  match ps with
  | [] => (PinPending, [])
  | p :: rest =>
      if timed_out startTime (fst p)
      then (PinTimedOut, ReadMillis (fst p) :: timeout_feedback)
      else if Ascii.eqb (snd p) NO_KEY
      then let '(r, tr) := wait_keys startTime i buf rest in
           (r, poll_events p ++ tr)
      else let buf' := <[i := snd p]> buf in
           if (S i <? pinAmount)%nat
           then let '(r, tr) := wait_keys startTime (S i) buf' rest in
                (r, poll_events p ++ tr)
           else (PinDone buf', poll_events p)
  end.

(** [char keypadEnters[5]] before anything is stored in it. *)
Definition fresh_buffer (a : Attempt) : list ascii := map (garbage a) (seq 0 5).

Definition pin_entry (a : Attempt) : PinResult * list Event :=
  if (0 <? pinAmount)%nat
  then wait_keys (startMillis a) 0 (fresh_buffer a) (polls a)
  else (PinDone (fresh_buffer a), []).

(** The serial echo of the entered PIN. *)
Definition pin_log (buf : list ascii) : list Event :=
  [ SerialPrint "PIN entered: " ]
  ++ flat_map (fun c => [SerialPrintChar c; SerialPrint " "]) (take pinAmount buf)
  ++ [ SerialPrintln "" ].

(** ** [loop()] *)

Definition loop (a : Attempt) : Outcome * list Event :=
  if negb (cardPresent a) then (NoCard, [IsNewCardPresent false])
  else if negb (readOk a)
  then (ReadFailed,
        [IsNewCardPresent true; SerialPrintln "Card detected"; ReadCardSerial false])
  else
    let rowStorer := find_row (scannedArray a) in
    if (rowStorer =? -1)%Z
    then (RejectedCard, card_events a ++ unauthorized_feedback)
    else
      match users !! Z.to_nat rowStorer with
      | None => (Fault, card_events a)
      | Some u =>
          let head := card_events a ++ prompt_events u
                      ++ [ReadMillis (startMillis a)] in
          match pin_entry a with
          | (PinPending, tr) => (Pending, head ++ tr)
          | (PinTimedOut, tr) => (TimedOut, head ++ tr)
          | (PinDone buf, tr) =>
              let keypadEnters := <[pinAmount := NUL]> buf in
              if negb (strcmp (pins u) keypadEnters =? 0)%Z
              then (RejectedPin, head ++ tr ++ pin_log keypadEnters ++ denied_feedback)
              else (Accepted, head ++ tr ++ pin_log keypadEnters ++ granted_feedback)
          end
      end.

(** ** [setup()] and the board *)

Definition setup : list Event :=
  [ SerialBegin 9600; SpiBegin; PcdInit; LcdBegin 16 2; LcdClear;
    PinModeOutput BUZZER_PIN; PinModeOutput RED_LED; PinModeOutput GREEN_LED;
    SerialPrintln ""; SerialPrintln "System is ready!"; SerialPrintln "" ].

(** The user-visible state of the feedback sink. *)
Record Board := mkBoard {
  red : bool;                (* level of RED_LED   *)
  green : bool;              (* level of GREEN_LED *)
  buzzer : option Z;         (* frequency being emitted, if any *)
  display : list string      (* text written since the last clear *)
}.

(** Output latches read low after reset. *)
Definition power_on : Board := mkBoard false false None [].

Definition digitalWrite (pin : Z) (v : bool) (b : Board) : Board :=
  if (pin =? RED_LED)%Z then mkBoard v (green b) (buzzer b) (display b)
  else if (pin =? GREEN_LED)%Z then mkBoard (red b) v (buzzer b) (display b)
  else b.

Definition apply_event (b : Board) (e : Event) : Board :=
  match e with
  | DigitalWrite pin v => digitalWrite pin v b
  | Tone _ f => mkBoard (red b) (green b) (Some f) (display b)
  | NoTone _ => mkBoard (red b) (green b) None (display b)
  | LcdClear => mkBoard (red b) (green b) (buzzer b) []
  | LcdPrint s => mkBoard (red b) (green b) (buzzer b) (display b ++ [s])
  | _ => b
  end.

Definition replay (b : Board) (tr : list Event) : Board :=
  fold_left apply_event tr b.

(** The events of a whole execution: [setup()], then [loop()] once per
    attempt. *)
Definition execution (atts : list Attempt) : list Event :=
  setup ++ flat_map (fun a => snd (loop a)) atts.

(** ** Vocabulary of the properties *)

(** The identity store as the controller consults it: the row found by the
    search loop, read back through the [rowStorer == -1] test and the
    [users[rowStorer]] accesses of [loop()]. *)
Definition lookup (fingerprint : list Z) : option User :=
  let rowStorer := find_row fingerprint in
  if (rowStorer =? -1)%Z then None else users !! Z.to_nat rowStorer.

(** The identity a pass resolves, if it gets that far. *)
Definition resolved (a : Attempt) : option User :=
  if cardPresent a && readOk a then lookup (scannedArray a) else None.

(** The four characters of a stored PIN (the array without its NUL). *)
Definition stored_pin (u : User) : list ascii := take pinAmount (pins u).

(** A poll whose deadline check passes. *)
Definition within (startTime : Z) (p : Poll) : Prop :=
  (elapsed startTime (fst p) <= PIN_TIMEOUT)%Z.

(** The keys a list of polls delivers, in order. *)
Fixpoint pressed (ps : list Poll) : list ascii :=
  match ps with
  | [] => []
  | p :: rest =>
      if Ascii.eqb (snd p) NO_KEY then pressed rest else snd p :: pressed rest
  end.

(** [keypadEnters[i] = k] for successive keys, starting at index [i]. *)
Fixpoint store (i : nat) (ks : list ascii) (buf : list ascii) : list ascii :=
  match ks with
  | [] => buf
  | k :: ks' => store (S i) ks' (<[i := k]> buf)
  end.

Definition is_terminal (o : Outcome) : bool :=
  match o with
  | Accepted | RejectedCard | RejectedPin | TimedOut => true
  | _ => false
  end.

(** Events that reach the user: tone, lights, display. *)
Definition is_feedback (e : Event) : bool :=
  match e with
  | Tone _ _ | NoTone _ | DigitalWrite _ _
  | LcdClear | LcdPrint _ | LcdSetCursor _ _ => true
  | _ => false
  end.

(** Events of the PIN phase's polling: a clock read or a keypad read. *)
Definition is_polling (e : Event) : bool :=
  match e with
  | ReadMillis _ | GetKey _ => true
  | _ => false
  end.

Definition is_led_write (e : Event) : bool :=
  match e with
  | DigitalWrite _ _ => true
  | _ => false
  end.

(** Time spent in [delay] until the display is next cleared. *)
Fixpoint hold_until_clear (tr : list Event) : Z :=
  match tr with
  | [] => 0
  | LcdClear :: _ => 0
  | Delay ms :: tr' => (ms + hold_until_clear tr')%Z
  | _ :: tr' => hold_until_clear tr'
  end.

(** How long the message [msg] stays on the display. *)
Fixpoint hold_time (msg : string) (tr : list Event) : Z :=
  match tr with
  | [] => 0
  | LcdPrint s :: tr' =>
      if String.eqb s msg then hold_until_clear tr' else hold_time msg tr'
  | _ :: tr' => hold_time msg tr'
  end.

(** Time spent in [delay] until the buzzer is next silenced. *)
Fixpoint sounding (tr : list Event) : Z :=
  match tr with
  | [] => 0
  | NoTone _ :: _ => 0
  | Delay ms :: tr' => (ms + sounding tr')%Z
  | _ :: tr' => sounding tr'
  end.

(** How long the tone of frequency [freq] lasts. *)
Fixpoint tone_time (freq : Z) (tr : list Event) : Z :=
  match tr with
  | [] => 0
  | Tone _ f :: tr' =>
      if (f =? freq)%Z then sounding tr' else tone_time freq tr'
  | _ :: tr' => tone_time freq tr'
  end.

Definition is_digit (c : ascii) : bool :=
  (48 <=? char_code c)%Z && (char_code c <=? 57)%Z.

(** The sixteen keys of the matrix, and the non-digit ones among them. *)
Definition key_set : list ascii := concat keys.
Definition auxiliary_keys : list ascii :=
  List.filter (fun c => negb (is_digit c)) key_set.

Definition set_garbage (g : nat -> ascii) (a : Attempt) : Attempt :=
  mkAttempt (cardPresent a) (readOk a) (uidSize a) (uidByte a) g
            (startMillis a) (polls a).

Definition set_polls (ps : list Poll) (a : Attempt) : Attempt :=
  mkAttempt (cardPresent a) (readOk a) (uidSize a) (uidByte a) (garbage a)
            (startMillis a) ps.

(** The three ways the PIN loop can go on a poll script [ps], entered at
    iteration [i] with buffer [buf]: the script ends first; a poll fails the
    deadline check before [pinAmount] keys are in; or the key that fills the
    buffer arrives, every poll up to it having passed the check. *)
Inductive pin_run (startTime : Z) (i : nat) (buf : list ascii) (ps : list Poll)
  : PinResult -> list Event -> Prop :=
  | run_pending :
      Forall (within startTime) ps ->
      (i + length (pressed ps) < pinAmount)%nat ->
      pin_run startTime i buf ps PinPending (flat_map poll_events ps)
  | run_timed_out (pre : list Poll) (p : Poll) (rest : list Poll) :
      ps = pre ++ p :: rest ->
      Forall (within startTime) pre ->
      (PIN_TIMEOUT < elapsed startTime (fst p))%Z ->
      (i + length (pressed pre) < pinAmount)%nat ->
      pin_run startTime i buf ps PinTimedOut
        (flat_map poll_events pre ++ ReadMillis (fst p) :: timeout_feedback)
  | run_done (pre : list Poll) (p : Poll) (rest : list Poll) :
      ps = pre ++ p :: rest ->
      Forall (within startTime) (pre ++ [p]) ->
      snd p <> NO_KEY ->
      (i + length (pressed pre) + 1 = pinAmount)%nat ->
      pin_run startTime i buf ps
        (PinDone (store i (pressed (pre ++ [p])) buf))
        (flat_map poll_events (pre ++ [p])).

(** The feedback sequence that ends a pass with outcome [o]. *)
Definition feedback (o : Outcome) : list Event :=
  match o with
  | RejectedCard => unauthorized_feedback
  | TimedOut => timeout_feedback
  | RejectedPin => denied_feedback
  | Accepted => granted_feedback
  | _ => []
  end.

(** Both indicators deasserted. *)
Definition leds_off (b : Board) : Prop := red b = false /\ green b = false.

(** Unfolds a prefix of a closed event list position by position. *)
Ltac walk m tac :=
  do 16 (try (destruct m as [|m]; [tac|])); try (destruct m; tac).

(** The events that follow the next [noTone]. *)
Fixpoint after_tone (tr : list Event) : list Event :=
  match tr with
  | [] => []
  | NoTone _ :: tr' => tr'
  | _ :: tr' => after_tone tr'
  end.

(** How long the message [msg] stays on the display once the tone that
    accompanies it has stopped. *)
Fixpoint hold_after_tone (msg : string) (tr : list Event) : Z :=
  match tr with
  | [] => 0
  | LcdPrint s :: tr' =>
      if String.eqb s msg then hold_until_clear (after_tone tr')
      else hold_after_tone msg tr'
  | _ :: tr' => hold_after_tone msg tr'
  end.

Definition is_key_read (e : Event) : bool :=
  match e with
  | GetKey _ => true
  | _ => false
  end.

(** Every keypad read of [tr] comes directly after a clock read that passed
    the deadline check, and [tr] does not begin with a keypad read. *)
Definition reads_follow_checks (startTime : Z) (tr : list Event) : Prop :=
  (forall (i : nat) (k : ascii),
      tr !! S i = Some (GetKey k) ->
      exists t, tr !! i = Some (ReadMillis t)
                /\ (elapsed startTime t <= PIN_TIMEOUT)%Z)
  /\ (forall k : ascii, tr !! 0%nat <> Some (GetKey k)).

(** ** Vocabulary of the further properties *)

(** Time spent in [delay] while output [pin] is high, [on] being its level
    at the start of [tr]. *)
Fixpoint led_time_from (pin : Z) (on : bool) (tr : list Event) : Z :=
  match tr with
  | [] => 0
  | DigitalWrite p v :: tr' =>
      if (p =? pin)%Z then led_time_from pin v tr' else led_time_from pin on tr'
  | Delay ms :: tr' => ((if on then ms else 0) + led_time_from pin on tr')%Z
  | _ :: tr' => led_time_from pin on tr'
  end.

Definition led_time (pin : Z) (tr : list Event) : Z := led_time_from pin false tr.

(** The texts [loop()] writes to the display. *)
Definition prompt_messages : list string := ["Hello "; "Enter Pin: "; "*"].
Definition outcome_messages : list string :=
  ["UNAUTHORIZED"; "SESSION EXPIRED"; "ACCESS DENIED"; "ACCESS GRANTED"].
Definition known_messages : list string :=
  prompt_messages ++ map name users ++ outcome_messages.

(** Events that can occur in a pass before its outcome's feedback: logging,
    reader, clock and keypad calls, the read beep, the prompt and the key
    echoes. *)
Definition is_prelude (e : Event) : bool :=
  match e with
  | SerialPrint _ | SerialPrintln _ | SerialPrintHex _ | SerialPrintChar _ => true
  | IsNewCardPresent _ | ReadCardSerial _ | ReadMillis _ | GetKey _ => true
  | Tone pin f => (pin =? BUZZER_PIN)%Z && ((f =? 1800)%Z || (f =? 1500)%Z)
  | NoTone pin => (pin =? BUZZER_PIN)%Z
  | Delay ms => (ms =? 100)%Z || (ms =? 50)%Z
  | LcdClear | LcdSetCursor _ _ => true
  | LcdPrint s => existsb (String.eqb s) (prompt_messages ++ map name users)
  | _ => false
  end.

Definition set_uid (size : Z) (bytes : list Z) (a : Attempt) : Attempt :=
  mkAttempt (cardPresent a) (readOk a) size bytes (garbage a)
            (startMillis a) (polls a).

(** The serial echo of four entered keys, as [loop()] prints it. *)
Definition pin_echo (ks : list ascii) : list Event :=
  SerialPrint "PIN entered: "
  :: flat_map (fun c => [SerialPrintChar c; SerialPrint " "]) ks
  ++ [SerialPrintln ""].

(** Scenario checks. *)

Definition no_garbage : nat -> ascii := fun _ => "x"%char.

Definition alice : User := mkUser [0xB3; 0x29; 0xD7; 0x5]%Z (cstr "1234") "Alice".
Definition bob : User := mkUser [0x5E; 0xEE; 0x9C; 0x4]%Z (cstr "ABCD") "Bob".

Definition alice_card : list Z := [0xB3; 0x29; 0xD7; 0x05; 0; 0; 0; 0; 0; 0]%Z.
Definition bob_card : list Z := [0x5E; 0xEE; 0x9C; 0x04; 0; 0; 0; 0; 0; 0]%Z.
Definition unknown_card : list Z := [1; 2; 3; 4; 0; 0; 0; 0; 0; 0]%Z.

Definition scenario1 : Attempt :=
  mkAttempt true true 4 alice_card no_garbage 1000
    [(1100, "1"); (1200, "2"); (1300, NUL); (1400, "3"); (8500, "4")]%Z%char.

Definition scenario2 : Attempt :=
  mkAttempt true true 4 alice_card no_garbage 1000
    [(1100, "1"); (1200, "2"); (1400, "3"); (1500, "5")]%Z%char.

Definition scenario3 : Attempt :=
  mkAttempt true true 4 unknown_card no_garbage 1000 [].

Definition scenario4 : Attempt :=
  mkAttempt true true 4 bob_card no_garbage 1000
    [(1100, "A"); (1200, "B"); (8600, NUL)]%Z%char.

(** A seven-byte UID whose first four bytes are Alice's fingerprint. *)
Definition long_card : list Z := [0xB3; 0x29; 0xD7; 0x05; 0x11; 0x22; 0x33; 0; 0; 0]%Z.

Definition long_card_attempt : Attempt :=
  mkAttempt true true 7 long_card no_garbage 1000 [(1100, "1")]%Z%char.

(** Bob's card followed by the four letter keys. *)
Definition bob_attempt : Attempt :=
  mkAttempt true true 4 bob_card no_garbage 1000
    [(1100, "A"); (1200, "B"); (1300, "C"); (1400, "D")]%Z%char.

Definition failed_read : Attempt :=
  mkAttempt true false 0 alice_card no_garbage 0 [].

Definition no_card : Attempt :=
  mkAttempt false false 0 alice_card no_garbage 0 [].

(** Alice's card and PIN, the PIN phase anchored 100 ms before the
    millisecond counter wraps around. *)
Definition rollover_attempt : Attempt :=
  mkAttempt true true 4 alice_card no_garbage 4294967196
    [(4294967290, "1"); (50, "2"); (3000, "3"); (7400, "4")]%Z%char.

(** The same anchor with a single key and then a poll 7501 ms after it. *)
Definition rollover_timeout : Attempt :=
  mkAttempt true true 4 alice_card no_garbage 4294967196
    [(4294967290, "1"); (7401, NUL)]%Z%char.

Example users_are_alice_and_bob : users = [alice; bob].
Proof. reflexivity. Qed.

Example scenario1_accepted : fst (loop scenario1) = Accepted.
Proof. reflexivity. Qed.

Example scenario2_rejected : fst (loop scenario2) = RejectedPin.
Proof. reflexivity. Qed.

Example scenario3_rejected : fst (loop scenario3) = RejectedCard.
Proof. reflexivity. Qed.

Example scenario4_timed_out : fst (loop scenario4) = TimedOut.
Proof. reflexivity. Qed.

(** ** The identity store *)

Section IdentityStore.

Lemma memcmp_eq (n : nat) :
  forall a b : list Z,
    length a = n -> length b = n -> (memcmp a b n = 0%Z <-> a = b).
Proof.
  induction n as [|n IH]; intros [|x a] [|y b] Ha Hb; simpl in *;
    try discriminate; try tauto.
  destruct (Z.eqb_spec x y) as [->|Hxy].
  - rewrite IH by lia. split; congruence.
  - split; [lia | congruence].
Qed.

Lemma memcmp_eqb (a b : list Z) :
  length a = 4%nat -> length b = 4%nat ->
  (memcmp a b 4 =? 0)%Z = bool_decide (a = b).
Proof.
  intros Ha Hb. pose proof (memcmp_eq 4 a b Ha Hb) as H.
  destruct (Z.eqb_spec (memcmp a b 4) 0); case_bool_decide; tauto.
Qed.

Lemma users_fingerprint_length (u : User) :
  u ∈ users -> length (cardIDS u) = 4%nat.
Proof.
  unfold users. rewrite !elem_of_cons, elem_of_nil.
  intros [-> | [-> | []]]; reflexivity.
Qed.

(** No two records share a fingerprint. *)
Lemma users_fingerprint_unique (u v : User) :
  u ∈ users -> v ∈ users -> cardIDS u = cardIDS v -> u = v.
Proof.
  unfold users. rewrite !elem_of_cons, !elem_of_nil.
  intros [-> | [-> | []]] [-> | [-> | []]]; simpl; intros Hid;
    first [reflexivity | discriminate Hid].
Qed.

Lemma lookup_Some (F : list Z) (u : User) :
  length F = 4%nat -> (lookup F = Some u <-> u ∈ users /\ cardIDS u = F).
Proof.
  intros HF. unfold lookup, find_row, scan_users, users.
  rewrite !elem_of_cons, elem_of_nil. simpl.
  rewrite !memcmp_eqb by (assumption || reflexivity).
  repeat case_bool_decide; simpl; subst; split.
  all: try (intros [= <-]; auto; fail).
  all: try discriminate.
  all: intros [[-> | [-> | []]] Hid]; simpl in *;
    first [reflexivity | congruence].
Qed.

Lemma lookup_None (F : list Z) :
  length F = 4%nat ->
  (lookup F = None <-> forall u, u ∈ users -> cardIDS u <> F).
Proof.
  intros HF. split.
  - intros Hn u Hu Hid.
    assert (lookup F = Some u) by (apply lookup_Some; auto). congruence.
  - intros Hall. destruct (lookup F) as [u|] eqn:E; [|reflexivity].
    apply lookup_Some in E as [Hu Hid]; [|assumption].
    exfalso. exact (Hall u Hu Hid).
Qed.

Lemma scannedArray_length (a : Attempt) : length (scannedArray a) = 4%nat.
Proof. reflexivity. Qed.

Lemma scannedArray_take (a : Attempt) :
  (4 <= length (uidByte a))%nat -> scannedArray a = take 4 (uidByte a).
Proof.
  unfold scannedArray. destruct (uidByte a) as [|b0 [|b1 [|b2 [|b3 l]]]];
    simpl; intros; try lia. reflexivity.
Qed.

(** The index used for [users[rowStorer]] is always inside the table. *)
Lemma find_row_cases (F : list Z) :
  find_row F = (-1)%Z \/ find_row F = 0%Z \/ find_row F = 1%Z.
Proof.
  unfold find_row, scan_users, users. simpl.
  repeat match goal with |- context [if ?c then _ else _] => destruct c end;
    auto.
Qed.

End IdentityStore.

(** ** The PIN phase *)

Section PinPhase.

Variable startTime : Z.

Lemma timed_out_true (t : Z) :
  timed_out startTime t = true <-> (PIN_TIMEOUT < elapsed startTime t)%Z.
Proof. unfold timed_out. apply Z.ltb_lt. Qed.

Lemma timed_out_false (p : Poll) :
  timed_out startTime (fst p) = false <-> within startTime p.
Proof. unfold timed_out, within. rewrite Z.ltb_ge. reflexivity. Qed.

(** The unsigned subtraction gives the true elapsed time as long as less
    than 2^32 ms have passed, whatever the counter's wrap-arounds. *)
Lemma elapsed_exact (t0 t : Z) :
  (0 <= t - t0 < ULONG_MOD)%Z ->
  elapsed (t0 mod ULONG_MOD) (t mod ULONG_MOD) = (t - t0)%Z.
Proof.
  intros H. unfold elapsed.
  rewrite <- Zminus_mod. apply Z.mod_small. exact H.
Qed.

Lemma no_key_eqb (k : ascii) : Ascii.eqb k NO_KEY = false <-> k <> NO_KEY.
Proof. apply Ascii.eqb_neq. Qed.

Lemma pressed_app (ps qs : list Poll) :
  pressed (ps ++ qs) = pressed ps ++ pressed qs.
Proof.
  induction ps as [|p ps IH]; simpl; [reflexivity|].
  destruct (Ascii.eqb (snd p) NO_KEY); simpl; congruence.
Qed.

Lemma pressed_no_nul (ps : list Poll) : Forall (fun k => k <> NUL) (pressed ps).
Proof.
  induction ps as [|p ps IH]; simpl; [constructor|].
  destruct (Ascii.eqb (snd p) NO_KEY) eqn:E; [assumption|].
  constructor; [|assumption]. apply no_key_eqb. exact E.
Qed.

Lemma pin_run_skip (i : nat) (buf : list ascii) (p : Poll) (ps : list Poll)
    (r : PinResult) (tr : list Event) :
  within startTime p -> snd p = NO_KEY ->
  pin_run startTime i buf ps r tr ->
  pin_run startTime i buf (p :: ps) r (poll_events p ++ tr).
Proof.
  intros Hw Hk Hrun.
  assert (Hp : pressed [p] = []) by (simpl; rewrite Hk; reflexivity).
  destruct Hrun as [Hall Hn | pre q rest -> Hall Hq Hn | pre q rest -> Hall Hq Hn].
  - change (poll_events p ++ flat_map poll_events ps)
      with (flat_map poll_events (p :: ps)).
    apply run_pending; [constructor; assumption|].
    change (p :: ps) with ([p] ++ ps). rewrite pressed_app, Hp. exact Hn.
  - rewrite app_assoc.
    change (poll_events p ++ flat_map poll_events pre)
      with (flat_map poll_events (p :: pre)).
    apply run_timed_out with (rest := rest); auto.
    change (p :: pre) with ([p] ++ pre). rewrite pressed_app, Hp. exact Hn.
  - change (poll_events p ++ flat_map poll_events (pre ++ [q]))
      with (flat_map poll_events ((p :: pre) ++ [q])).
    replace (pressed (pre ++ [q])) with (pressed ((p :: pre) ++ [q]))
      by (change ((p :: pre) ++ [q]) with ([p] ++ (pre ++ [q]));
          rewrite (pressed_app [p]), Hp; reflexivity).
    apply run_done with (rest := rest); auto.
    + simpl. constructor; assumption.
    + change (p :: pre) with ([p] ++ pre). rewrite pressed_app, Hp. exact Hn.
Qed.

Lemma pin_run_key (i : nat) (buf : list ascii) (p : Poll) (ps : list Poll)
    (r : PinResult) (tr : list Event) :
  within startTime p -> snd p <> NO_KEY ->
  pin_run startTime (S i) (<[i := snd p]> buf) ps r tr ->
  pin_run startTime i buf (p :: ps) r (poll_events p ++ tr).
Proof.
  intros Hw Hk Hrun.
  assert (Hp : pressed [p] = [snd p])
    by (simpl; apply no_key_eqb in Hk; rewrite Hk; reflexivity).
  destruct Hrun as [Hall Hn | pre q rest -> Hall Hq Hn | pre q rest -> Hall Hq Hn].
  - change (poll_events p ++ flat_map poll_events ps)
      with (flat_map poll_events (p :: ps)).
    apply run_pending; [constructor; assumption|].
    change (p :: ps) with ([p] ++ ps). rewrite pressed_app, Hp. simpl. lia.
  - rewrite app_assoc.
    change (poll_events p ++ flat_map poll_events pre)
      with (flat_map poll_events (p :: pre)).
    apply run_timed_out with (rest := rest); auto.
    change (p :: pre) with ([p] ++ pre). rewrite pressed_app, Hp. simpl. lia.
  - change (poll_events p ++ flat_map poll_events (pre ++ [q]))
      with (flat_map poll_events ((p :: pre) ++ [q])).
    replace (store (S i) (pressed (pre ++ [q])) (<[i := snd p]> buf))
      with (store i (pressed ((p :: pre) ++ [q])) buf)
      by (change ((p :: pre) ++ [q]) with ([p] ++ (pre ++ [q]));
          rewrite (pressed_app [p]), Hp; reflexivity).
    apply run_done with (rest := rest); auto.
    + simpl. constructor; assumption.
    + change (p :: pre) with ([p] ++ pre). rewrite pressed_app, Hp. simpl. lia.
Qed.

(** Every run of the loop is one of the three. *)
Lemma wait_keys_run (ps : list Poll) :
  forall (i : nat) (buf : list ascii),
    (i < pinAmount)%nat ->
    pin_run startTime i buf ps
      (fst (wait_keys startTime i buf ps)) (snd (wait_keys startTime i buf ps)).
Proof.
  induction ps as [|p ps IH]; intros i buf Hi; cbn [wait_keys].
  - apply (run_pending startTime i buf []); [constructor | simpl; lia].
  - destruct (timed_out startTime (fst p)) eqn:Et; cbn [fst snd].
    + apply timed_out_true in Et.
      apply (run_timed_out startTime i buf (p :: ps) [] p ps);
        [reflexivity | constructor | assumption | simpl; lia].
    + apply timed_out_false in Et.
      destruct (Ascii.eqb (snd p) NO_KEY) eqn:Ek.
      * apply Ascii.eqb_eq in Ek. specialize (IH i buf Hi).
        destruct (wait_keys startTime i buf ps) as [r tr]; cbn [fst snd] in *.
        apply pin_run_skip; assumption.
      * apply no_key_eqb in Ek.
        destruct (S i <? pinAmount)%nat eqn:En.
        -- apply Nat.ltb_lt in En. specialize (IH (S i) (<[i := snd p]> buf) En).
           destruct (wait_keys startTime (S i) (<[i := snd p]> buf) ps) as [r tr];
             cbn [fst snd] in *.
           apply pin_run_key; assumption.
        -- apply Nat.ltb_ge in En. cbn [fst snd].
           assert (Hp : pressed [p] = [snd p])
             by (simpl; apply no_key_eqb in Ek; rewrite Ek; reflexivity).
           replace (<[i := snd p]> buf) with (store i (pressed ([] ++ [p])) buf)
             by (simpl app; rewrite Hp; reflexivity).
           replace (poll_events p) with (flat_map poll_events ([] ++ [p]))
             by (cbn [app flat_map]; apply app_nil_r).
           apply run_done with (rest := ps);
             [reflexivity | repeat constructor; assumption | assumption
             | simpl; lia].
Qed.

(** Polls that pass the check and leave the buffer short are consumed one
    by one. *)
Lemma wait_keys_app (pre : list Poll) :
  forall (i : nat) (buf : list ascii) (rest : list Poll),
    Forall (within startTime) pre ->
    (i + length (pressed pre) < pinAmount)%nat ->
    wait_keys startTime i buf (pre ++ rest) =
    (fst (wait_keys startTime (i + length (pressed pre))
            (store i (pressed pre) buf) rest),
     flat_map poll_events pre
     ++ snd (wait_keys startTime (i + length (pressed pre))
               (store i (pressed pre) buf) rest)).
Proof.
  induction pre as [|p pre IH]; intros i buf rest Hall Hn.
  - simpl. rewrite Nat.add_0_r. destruct (wait_keys _ _ _ _); reflexivity.
  - inversion Hall as [|? ? Hp Hpre]; subst.
    apply timed_out_false in Hp.
    cbn [app wait_keys pressed flat_map] in *. rewrite Hp.
    destruct (Ascii.eqb (snd p) NO_KEY) eqn:Ek.
    + rewrite (IH i buf rest Hpre Hn); cbn [fst snd].
      rewrite <- app_assoc. reflexivity.
    + cbn [length store] in *.
      assert (Hi : (S i <? pinAmount)%nat = true) by (apply Nat.ltb_lt; lia).
      rewrite Hi.
      rewrite (IH (S i) (<[i := snd p]> buf) rest Hpre) by lia; cbn [fst snd].
      rewrite <- app_assoc.
      replace (i + S (length (pressed pre)))%nat
        with (S i + length (pressed pre))%nat by lia.
      reflexivity.
Qed.

(** The loop is determined by which of the three runs the script admits. *)
Lemma pin_run_wait_keys (i : nat) (buf : list ascii) (ps : list Poll)
    (r : PinResult) (tr : list Event) :
  pin_run startTime i buf ps r tr -> wait_keys startTime i buf ps = (r, tr).
Proof.
  intros [Hall Hn | pre p rest -> Hall Hp Hn | pre p rest -> Hall Hk Hn].
  - rewrite <- (app_nil_r ps) at 1. rewrite wait_keys_app by assumption.
    simpl. rewrite app_nil_r. reflexivity.
  - rewrite wait_keys_app by assumption. cbn [wait_keys].
    apply timed_out_true in Hp. rewrite Hp. reflexivity.
  - apply Forall_app in Hall as [Hpre Hp].
    rewrite Forall_singleton in Hp.
    rewrite wait_keys_app by (assumption || lia). cbn [wait_keys].
    apply timed_out_false in Hp. rewrite Hp.
    pose proof Hk as Hne'. apply no_key_eqb in Hne'. rewrite Hne'.
    assert (Hi : (S (i + length (pressed pre)) <? pinAmount)%nat = false)
      by (apply Nat.ltb_ge; lia).
    rewrite Hi. cbn [fst snd].
    rewrite flat_map_app, pressed_app. cbn [flat_map pressed].
    rewrite Hne', app_nil_r. f_equal. f_equal.
    clear. revert i buf. induction (pressed pre) as [|k ks IH]; intros i buf.
    + simpl. rewrite Nat.add_0_r. reflexivity.
    + simpl. rewrite <- IH. f_equal. lia.
Qed.

End PinPhase.

(** ** PIN comparison *)

Section PinComparison.

Lemma char_code_inj (x y : ascii) : char_code x = char_code y -> x = y.
Proof.
  unfold char_code. intros H. apply N2Z.inj in H.
  rewrite <- (ascii_N_embedding x), <- (ascii_N_embedding y). congruence.
Qed.

Lemma strcmp_head_ne (x y : ascii) (a b : list ascii) :
  x <> y -> strcmp (x :: a) (y :: b) <> 0%Z.
Proof.
  intros Hxy. simpl. pose proof Hxy as E. apply Ascii.eqb_neq in E. rewrite E.
  intros H. apply Hxy, char_code_inj. lia.
Qed.

(** On NUL-terminated arrays without inner NULs, [strcmp] returns 0
    exactly when the two character sequences are the same. *)
Lemma strcmp_cstr (xs : list ascii) :
  forall ys : list ascii,
    Forall (fun c => c <> NUL) xs -> Forall (fun c => c <> NUL) ys ->
    (strcmp (xs ++ [NUL]) (ys ++ [NUL]) = 0%Z <-> xs = ys).
Proof.
  induction xs as [|x xs IH]; intros [|y ys] Hx Hy.
  - simpl. tauto.
  - inversion Hy; subst. split; [|discriminate].
    intros H. exfalso. revert H. apply strcmp_head_ne. congruence.
  - inversion Hx; subst. split; [|discriminate].
    intros H. exfalso. revert H. apply strcmp_head_ne. congruence.
  - inversion Hx as [|? ? Hxn Hxs]; inversion Hy as [|? ? Hyn Hys]; subst.
    destruct (decide (x = y)) as [->|Hne].
    + cbn [app strcmp]. rewrite Ascii.eqb_refl.
      apply Ascii.eqb_neq in Hyn. rewrite Hyn.
      rewrite (IH ys Hxs Hys). split; congruence.
    + split; [|congruence].
      intros H. exfalso. revert H. apply strcmp_head_ne. exact Hne.
Qed.

(** Four stores and the terminator fill the whole array. *)
Lemma store_full (ks buf : list ascii) :
  length ks = pinAmount -> length buf = 5%nat ->
  <[pinAmount := NUL]> (store 0 ks buf) = ks ++ [NUL].
Proof.
  destruct ks as [|k0 [|k1 [|k2 [|k3 [|]]]]]; try discriminate.
  destruct buf as [|b0 [|b1 [|b2 [|b3 [|b4 [|]]]]]]; try discriminate.
  reflexivity.
Qed.

Lemma fresh_buffer_length (a : Attempt) : length (fresh_buffer a) = 5%nat.
Proof. reflexivity. Qed.

Lemma users_pins (u : User) :
  u ∈ users ->
  pins u = stored_pin u ++ [NUL]
  /\ length (stored_pin u) = pinAmount
  /\ Forall (fun c => c <> NUL) (stored_pin u).
Proof.
  unfold users. rewrite !elem_of_cons, elem_of_nil.
  intros [-> | [-> | []]]; (split; [reflexivity | split; [reflexivity|]]);
    repeat constructor; discriminate.
Qed.

End PinComparison.

(** ** The controller *)

Section Controller.

Lemma resolved_inv (a : Attempt) (u : User) :
  resolved a = Some u ->
  cardPresent a = true /\ readOk a = true
  /\ lookup (scannedArray a) = Some u /\ u ∈ users.
Proof.
  unfold resolved. destruct (cardPresent a), (readOk a); simpl; try discriminate.
  intros H. repeat split; try assumption.
  apply lookup_Some in H; [tauto | apply scannedArray_length].
Qed.

Lemma pin_entry_wait_keys (a : Attempt) :
  pin_entry a = wait_keys (startMillis a) 0 (fresh_buffer a) (polls a).
Proof. reflexivity. Qed.

(** What [loop()] does once an identity is resolved. *)
Lemma loop_pin_phase (a : Attempt) (u : User) :
  resolved a = Some u ->
  loop a =
    let head := card_events a ++ prompt_events u
                ++ [ReadMillis (startMillis a)] in
    match pin_entry a with
    | (PinPending, tr) => (Pending, head ++ tr)
    | (PinTimedOut, tr) => (TimedOut, head ++ tr)
    | (PinDone buf, tr) =>
        let keypadEnters := <[pinAmount := NUL]> buf in
        if negb (strcmp (pins u) keypadEnters =? 0)%Z
        then (RejectedPin, head ++ tr ++ pin_log keypadEnters ++ denied_feedback)
        else (Accepted, head ++ tr ++ pin_log keypadEnters ++ granted_feedback)
    end.
Proof.
  unfold resolved, lookup, loop.
  destruct (cardPresent a), (readOk a); simpl; try discriminate.
  destruct (find_row (scannedArray a) =? -1)%Z; [discriminate|].
  intros ->. reflexivity.
Qed.

Lemma loop_unresolved (a : Attempt) :
  cardPresent a = true -> readOk a = true ->
  lookup (scannedArray a) = None ->
  loop a = (RejectedCard, card_events a ++ unauthorized_feedback).
Proof.
  unfold lookup, loop. intros -> ->. simpl.
  destruct (find_row_cases (scannedArray a)) as [E | [E | E]]; rewrite E;
    simpl; [reflexivity | discriminate | discriminate].
Qed.

(** The [users[rowStorer]] accesses never leave the table. *)
Lemma loop_no_fault (a : Attempt) : fst (loop a) <> Fault.
Proof.
  unfold loop. destruct (cardPresent a), (readOk a); simpl; try discriminate.
  destruct (find_row_cases (scannedArray a)) as [E | [E | E]]; rewrite E;
    simpl; try discriminate.
  all: destruct (pin_entry a) as [[buf| |] tr]; try discriminate.
  all: match goal with |- context [if ?c then _ else _] => destruct c end;
    discriminate.
Qed.

(** The verdict once the buffer is full: the entered keys are the first
    four keys the polls delivered, and [strcmp] decides by equality. *)
Lemma loop_verdict (a : Attempt) (u : User) (buf : list ascii)
    (tr : list Event) :
  resolved a = Some u ->
  pin_entry a = (PinDone buf, tr) ->
  let entered := take pinAmount buf in
  entered = take pinAmount (pressed (polls a))
  /\ length entered = pinAmount
  /\ Forall (fun k => k <> NUL) entered
  /\ <[pinAmount := NUL]> buf = entered ++ [NUL]
  /\ fst (loop a) =
       (if bool_decide (entered = stored_pin u) then Accepted else RejectedPin).
Proof.
  intros Hres Hpin entered.
  pose proof (resolved_inv a u Hres) as (_ & _ & _ & Hu).
  destruct (users_pins u Hu) as (Hp & Hlen & Hnn).
  pose proof (wait_keys_run (startMillis a) (polls a) 0 (fresh_buffer a))
    as Hrun.
  rewrite <- pin_entry_wait_keys, Hpin in Hrun. cbn [fst snd] in Hrun.
  specialize (Hrun ltac:(unfold pinAmount; lia)).
  inversion Hrun as [| | pre p rest Hps Hall Hk Hn Hbuf Htr]; subst.
  set (ks := pressed (pre ++ [p])) in *.
  assert (Hks : length ks = pinAmount).
  { unfold ks. rewrite pressed_app, length_app. simpl.
    apply no_key_eqb in Hk. rewrite Hk. simpl. lia. }
  assert (Hfull : <[pinAmount := NUL]> (store 0 ks (fresh_buffer a))
                  = ks ++ [NUL])
    by (apply store_full; [exact Hks | apply fresh_buffer_length]).
  assert (Hent : entered = ks).
  { unfold entered.
    assert (E : take pinAmount (<[pinAmount := NUL]> (store 0 ks (fresh_buffer a)))
                = take pinAmount (store 0 ks (fresh_buffer a)))
      by (apply take_insert_ge; lia).
    rewrite <- E, Hfull, take_app_length'; [reflexivity | symmetry; exact Hks]. }
  rewrite Hent. repeat split.
  - rewrite Hps. change (pre ++ p :: rest) with (pre ++ [p] ++ rest).
    rewrite app_assoc, pressed_app. fold ks.
    rewrite take_app_length'; [reflexivity | symmetry; exact Hks].
  - exact Hks.
  - apply pressed_no_nul.
  - exact Hfull.
  - rewrite (loop_pin_phase a u Hres), Hpin. cbv zeta. rewrite Hfull, Hp.
    pose proof (strcmp_cstr (stored_pin u) ks Hnn (pressed_no_nul _)) as Hs.
    destruct (Z.eqb_spec (strcmp (stored_pin u ++ [NUL]) (ks ++ [NUL])) 0)
      as [E0 | E0]; case_bool_decide as Hd; simpl; try reflexivity.
    + exfalso. apply Hd. symmetry. apply Hs. exact E0.
    + exfalso. apply E0, Hs. symmetry. exact Hd.
Qed.

End Controller.

(** ** Properties of the identity lookup *)

(** C2. For every 4-byte fingerprint [F], [lookup] returns the record whose
    fingerprint equals [F] byte for byte and in order when there is one, and
    none when no record has that fingerprint; each of the two provisioned
    fingerprints yields its own record and no other. *)
Theorem lookup_exact_C2 (F : list Z) :
  length F = 4%nat ->
  (forall u, lookup F = Some u <-> u ∈ users /\ cardIDS u = F)
  /\ (lookup F = None <-> forall u, u ∈ users -> cardIDS u <> F)
  /\ (forall u v, lookup F = Some u -> v ∈ users -> cardIDS v = F -> v = u)
  /\ lookup [0xB3; 0x29; 0xD7; 0x05]%Z = Some alice
  /\ lookup [0x5E; 0xEE; 0x9C; 0x04]%Z = Some bob.
Proof.
  intros HF. split; [|split; [|split; [|split]]].
  - intros u. apply lookup_Some. exact HF.
  - apply lookup_None. exact HF.
  - intros u v Hu Hv Hid. apply lookup_Some in Hu as [Hu Hid']; [|exact HF].
    apply users_fingerprint_unique; congruence.
  - reflexivity.
  - reflexivity.
Qed.

Lemma lookup_exact_C2_witness :
  length (cardIDS bob) = 4%nat
  /\ lookup (cardIDS bob) = Some bob
  /\ lookup [1; 2; 3; 4]%Z = None.
Proof.
  split; [reflexivity|]. split.
  - apply (proj1 (lookup_exact_C2 (cardIDS bob) eq_refl) bob).
    split; [|reflexivity]. unfold users. apply list_elem_of_further, list_elem_of_here.
  - apply (proj1 (proj2 (lookup_exact_C2 [1; 2; 3; 4]%Z eq_refl))).
    intros u. unfold users. rewrite !elem_of_cons, elem_of_nil.
    intros [-> | [-> | []]]; discriminate.
Defined.

(** C9. Resolution reads the first four bytes of the reader's UID buffer and
    nothing else: whenever those four bytes are a record's fingerprint, the
    pass resolves that record and enters the PIN phase (greeting, prompt,
    deadline anchor), whatever the UID's reported size and further bytes. *)
Theorem first_four_bytes_C9 (a : Attempt) (u : User) :
  cardPresent a = true -> readOk a = true ->
  u ∈ users ->
  take 4 (uidByte a) = cardIDS u ->
  scannedArray a = cardIDS u
  /\ resolved a = Some u
  /\ (exists rest,
        snd (loop a) =
        card_events a ++ prompt_events u ++ ReadMillis (startMillis a) :: rest)
  /\ (fst (loop a) = Pending \/ fst (loop a) = TimedOut
      \/ fst (loop a) = RejectedPin \/ fst (loop a) = Accepted).
Proof.
  intros Hc Hr Hu Hid.
  assert (Hlen : (4 <= length (uidByte a))%nat).
  { pose proof (users_fingerprint_length u Hu) as H4.
    rewrite <- Hid, length_take in H4. lia. }
  assert (Hscan : scannedArray a = cardIDS u)
    by (rewrite scannedArray_take; assumption).
  assert (Hres : resolved a = Some u).
  { unfold resolved. rewrite Hc, Hr. simpl.
    apply lookup_Some; [apply scannedArray_length | auto]. }
  split; [exact Hscan|]. split; [exact Hres|].
  rewrite (loop_pin_phase a u Hres). cbv zeta.
  destruct (pin_entry a) as [[buf| |] tr].
  - destruct (negb _); cbn [fst snd]; (split; [|tauto]);
      eexists; rewrite <- !app_assoc; reflexivity.
  - cbn [fst snd]. split; [|tauto].
    eexists; rewrite <- !app_assoc; reflexivity.
  - cbn [fst snd]. split; [|tauto].
    eexists; rewrite <- !app_assoc; reflexivity.
Qed.

Lemma first_four_bytes_C9_witness :
  uidSize long_card_attempt = 7%Z
  /\ resolved long_card_attempt = Some alice
  /\ fst (loop long_card_attempt) = Pending.
Proof.
  split; [reflexivity|]. split.
  - apply (first_four_bytes_C9 long_card_attempt alice eq_refl eq_refl);
      [apply list_elem_of_here | reflexivity].
  - reflexivity.
Defined.

(** C6. A poll on which the reader reports a card but the serial read fails
    returns at once: no tone, no display write, no indicator change, no
    clock or keypad read, no identity resolved; the board is as it was.  The
    only output is the serial log line that precedes the read. *)
Theorem read_failure_silent_C6 (a : Attempt) :
  cardPresent a = true -> readOk a = false ->
  fst (loop a) = ReadFailed
  /\ resolved a = None
  /\ snd (loop a) =
       [IsNewCardPresent true; SerialPrintln "Card detected"; ReadCardSerial false]
  /\ Forall (fun e => is_feedback e = false) (snd (loop a))
  /\ Forall (fun e => is_polling e = false) (snd (loop a))
  /\ forall b, replay b (snd (loop a)) = b.
Proof.
  intros Hc Hr. unfold loop, resolved. rewrite Hc, Hr. simpl.
  repeat split; repeat constructor.
Qed.

Lemma read_failure_silent_C6_witness :
  fst (loop failed_read) = ReadFailed
  /\ replay power_on (snd (loop failed_read)) = power_on.
Proof.
  pose proof (read_failure_silent_C6 failed_read eq_refl eq_refl)
    as (Ho & _ & _ & _ & _ & Hb).
  split; [exact Ho | apply Hb].
Defined.

(** ** Properties of the PIN phase *)

(** A script that delivers [n + 1] keys splits at its last key. *)
Lemma pressed_last_key (ps : list Poll) :
  forall n : nat,
    length (pressed ps) = S n ->
    exists pre p post,
      ps = pre ++ p :: post /\ snd p <> NO_KEY
      /\ length (pressed pre) = n /\ pressed post = [].
Proof.
  induction ps as [|q ps IH] using rev_ind; intros n Hn; [discriminate|].
  rewrite pressed_app in Hn. simpl in Hn.
  destruct (Ascii.eqb (snd q) NO_KEY) eqn:Ek.
  - rewrite app_nil_r in Hn. destruct (IH n Hn) as (pre & p & post & -> & Hk & Hl & Hpost).
    exists pre, p, (post ++ [q]). rewrite <- app_assoc. repeat split; auto.
    rewrite pressed_app, Hpost. simpl. rewrite Ek. reflexivity.
  - exists ps, q, []. rewrite length_app in Hn. simpl in Hn.
    repeat split; [apply no_key_eqb; exact Ek | lia].
Qed.

(** The run of the PIN loop behind an attempt that resolved an identity. *)
Lemma loop_pin_run (a : Attempt) (u : User) :
  resolved a = Some u ->
  exists r tr,
    pin_entry a = (r, tr)
    /\ pin_run (startMillis a) 0 (fresh_buffer a) (polls a) r tr.
Proof.
  intros _. exists (fst (pin_entry a)), (snd (pin_entry a)). split.
  - destruct (pin_entry a); reflexivity.
  - rewrite pin_entry_wait_keys. apply wait_keys_run. unfold pinAmount. lia.
Qed.

Lemma pin_run_entry (a : Attempt) (r : PinResult) (tr : list Event) :
  pin_run (startMillis a) 0 (fresh_buffer a) (polls a) r tr ->
  pin_entry a = (r, tr).
Proof. intros H. rewrite pin_entry_wait_keys. apply pin_run_wait_keys. exact H. Qed.

(** C1. Once an identity is resolved and four keys are in the buffer, the
    outcome is [Accepted] when the buffer equals the stored PIN character for
    character, and [RejectedPin] when it differs from it at some position. *)
Theorem pin_verdict_C1 (a : Attempt) (u : User) (buf : list ascii)
    (tr : list Event) :
  resolved a = Some u ->
  pin_entry a = (PinDone buf, tr) ->
  let entered := take pinAmount buf in
  length entered = 4%nat
  /\ entered = take 4 (pressed (polls a))
  /\ (entered = stored_pin u -> fst (loop a) = Accepted)
  /\ ((exists j, (j < 4)%nat /\ entered !! j <> stored_pin u !! j) ->
      fst (loop a) = RejectedPin).
Proof.
  intros Hres Hpin entered.
  destruct (loop_verdict a u buf tr Hres Hpin) as (Hent & Hlen & _ & _ & Hout).
  fold entered in Hent, Hlen, Hout.
  split; [exact Hlen|]. split; [exact Hent|]. split.
  - intros Heq. rewrite Hout. rewrite bool_decide_eq_true_2; [reflexivity | exact Heq].
  - intros (j & _ & Hj). rewrite Hout.
    rewrite bool_decide_eq_false_2; [reflexivity|]. congruence.
Qed.

Lemma pin_verdict_C1_witness :
  fst (loop scenario1) = Accepted /\ fst (loop scenario2) = RejectedPin.
Proof.
  split.
  - exact (proj1 (proj2 (proj2 (pin_verdict_C1 scenario1 alice
             ["1"; "2"; "3"; "4"; "x"]%char (snd (pin_entry scenario1))
             eq_refl eq_refl))) eq_refl).
  - refine (proj2 (proj2 (proj2 (pin_verdict_C1 scenario2 alice
              ["1"; "2"; "3"; "5"; "x"]%char (snd (pin_entry scenario2))
              eq_refl eq_refl))) _).
    exists 3%nat. split; [lia | discriminate].
Defined.

(** C3. In a PIN phase anchored at [startMillis]: if fewer than four keys
    arrive on polls whose elapsed time is at most 7500 ms and the next poll
    finds more than 7500 ms elapsed, the outcome is [TimedOut]; if four keys
    arrive on polls whose elapsed time is at most 7500 ms (7500 itself
    included), the outcome is the PIN comparison's; and [TimedOut] is only
    ever produced by a poll whose elapsed time strictly exceeds 7500 ms. *)
Theorem pin_deadline_C3 (a : Attempt) (u : User) :
  resolved a = Some u ->
  let t0 := startMillis a in
  (forall pre p rest,
      polls a = pre ++ p :: rest ->
      Forall (within t0) pre ->
      (length (pressed pre) < 4)%nat ->
      (7500 < elapsed t0 (fst p))%Z ->
      fst (loop a) = TimedOut)
  /\ (forall pre rest,
      polls a = pre ++ rest ->
      Forall (fun p => (elapsed t0 (fst p) <= 7500)%Z) pre ->
      length (pressed pre) = 4%nat ->
      fst (loop a) =
        if bool_decide (pressed pre = stored_pin u) then Accepted else RejectedPin)
  /\ (fst (loop a) = TimedOut ->
      exists pre p rest,
        polls a = pre ++ p :: rest
        /\ Forall (fun q => (elapsed t0 (fst q) <= 7500)%Z) pre
        /\ (length (pressed pre) < 4)%nat
        /\ (7500 < elapsed t0 (fst p))%Z).
Proof.
  intros Hres t0. split; [|split].
  - intros pre p rest Hps Hall Hn Hp.
    assert (Hrun : pin_run t0 0 (fresh_buffer a) (polls a) PinTimedOut
                     (flat_map poll_events pre
                      ++ ReadMillis (fst p) :: timeout_feedback))
      by (apply run_timed_out with (rest := rest); auto).
    apply pin_run_entry in Hrun.
    rewrite (loop_pin_phase a u Hres), Hrun. reflexivity.
  - intros pre rest Hps Hall Hn.
    destruct (pressed_last_key pre 3 Hn) as (pre' & p & post & -> & Hk & Hl & Hpost).
    assert (Hrun : pin_run t0 0 (fresh_buffer a) (polls a)
                     (PinDone (store 0 (pressed (pre' ++ [p])) (fresh_buffer a)))
                     (flat_map poll_events (pre' ++ [p]))).
    { apply run_done with (rest := post ++ rest).
      - rewrite Hps, <- app_assoc. reflexivity.
      - apply Forall_app in Hall as [Hpre Hrest].
        apply Forall_app. split; [exact Hpre|].
        apply Forall_cons in Hrest as [Hp _]. apply Forall_singleton. exact Hp.
      - exact Hk.
      - rewrite Hl. reflexivity. }
    apply pin_run_entry in Hrun.
    destruct (loop_verdict a u _ _ Hres Hrun) as (Hent & _ & _ & _ & Hout).
    rewrite Hout, Hent, Hps, pressed_app.
    rewrite take_app_length'; [reflexivity | symmetry; exact Hn].
  - intros Hout.
    destruct (loop_pin_run a u Hres) as (r & tr & Hpin & Hrun).
    rewrite (loop_pin_phase a u Hres), Hpin in Hout. cbv zeta in Hout.
    destruct Hrun as [Hall Hn | pre p rest Hps Hall Hp Hn | pre p rest Hps Hall Hk Hn].
    + discriminate.
    + exists pre, p, rest. auto.
    + destruct (negb _) in Hout; discriminate.
Qed.

Lemma pin_deadline_C3_witness :
  fst (loop scenario4) = TimedOut /\ fst (loop scenario1) = Accepted.
Proof.
  split.
  - refine (proj1 (pin_deadline_C3 scenario4 bob eq_refl)
              [(1100, "A"); (1200, "B")]%Z%char (8600%Z, NUL) [] eq_refl _ _ _).
    + repeat constructor; unfold within; vm_compute; discriminate.
    + simpl. lia.
    + vm_compute. reflexivity.
  - refine (proj1 (proj2 (pin_deadline_C3 scenario1 alice eq_refl))
              (polls scenario1) [] eq_refl _ eq_refl).
    repeat constructor; vm_compute; discriminate.
Defined.

(** The events of a PIN phase: a run of polls that passed the deadline
    check, then what ends the phase. *)
Lemma pin_phase_events (a : Attempt) (u : User) :
  resolved a = Some u ->
  exists pre rest tail,
    polls a = pre ++ rest
    /\ Forall (within (startMillis a)) pre
    /\ snd (loop a) =
         card_events a ++ prompt_events u ++ [ReadMillis (startMillis a)]
         ++ flat_map poll_events pre ++ tail
    /\ match fst (loop a) with
       | TimedOut =>
           exists p rest',
             rest = p :: rest'
             /\ (PIN_TIMEOUT < elapsed (startMillis a) (fst p))%Z
             /\ (length (pressed pre) < pinAmount)%nat
             /\ tail = ReadMillis (fst p) :: timeout_feedback
       | Accepted | RejectedPin =>
           length (pressed pre) = pinAmount
           /\ (exists pre' p, pre = pre' ++ [p] /\ snd p <> NO_KEY)
           /\ Forall (fun e => is_polling e = false) tail
           /\ forall rest', loop (set_polls (pre ++ rest') a) = loop a
       | Pending =>
           rest = [] /\ tail = [] /\ (length (pressed pre) < pinAmount)%nat
       | _ => False
       end.
Proof.
  intros Hres.
  destruct (loop_pin_run a u Hres) as (r & tr & Hpin & Hrun).
  pose proof (loop_pin_phase a u Hres) as Hloop.
  rewrite Hpin in Hloop. cbv zeta in Hloop.
  destruct Hrun as [Hall Hn | pre p rest Hps Hall Hp Hn | pre p rest Hps Hall Hk Hn].
  - exists (polls a), [], []. rewrite Hloop. cbn [fst snd].
    rewrite !app_nil_r, <- !app_assoc. repeat split; auto.
  - exists pre, (p :: rest), (ReadMillis (fst p) :: timeout_feedback).
    rewrite Hloop. cbn [fst snd].
    rewrite <- !app_assoc. repeat split; auto.
    exists p, rest. auto.
  - set (buf := store 0 (pressed (pre ++ [p])) (fresh_buffer a)) in *.
    assert (Hlen : length (pressed (pre ++ [p])) = pinAmount).
    { rewrite pressed_app, length_app. simpl.
      pose proof Hk as Hk'. apply no_key_eqb in Hk'. rewrite Hk'. simpl. lia. }
    assert (Hindep : forall rest',
               loop (set_polls ((pre ++ [p]) ++ rest') a) = loop a).
    { intros rest'.
      assert (Hres' : resolved (set_polls ((pre ++ [p]) ++ rest') a) = Some u)
        by exact Hres.
      rewrite (loop_pin_phase _ u Hres'), (loop_pin_phase a u Hres), Hpin.
      assert (Hpin' : pin_entry (set_polls ((pre ++ [p]) ++ rest') a)
                      = (PinDone buf, flat_map poll_events (pre ++ [p]))).
      { apply pin_run_entry. apply run_done with (rest := rest'); auto.
        simpl. rewrite <- app_assoc. reflexivity. }
      rewrite Hpin'. reflexivity. }
    assert (Hlog : Forall (fun e => is_polling e = false)
                     (pin_log (<[pinAmount := NUL]> buf))).
    { unfold pin_log. apply Forall_app. split; [repeat constructor|].
      apply Forall_app. split; [|repeat constructor].
      induction (take pinAmount (<[pinAmount := NUL]> buf)); simpl;
        repeat constructor; assumption. }
    destruct (negb (strcmp (pins u) (<[pinAmount := NUL]> buf) =? 0)%Z).
    + exists (pre ++ [p]), rest,
        (pin_log (<[pinAmount := NUL]> buf) ++ denied_feedback).
      split; [rewrite Hps, <- app_assoc; reflexivity|].
      split; [exact Hall|].
      split; [rewrite Hloop, <- !app_assoc; reflexivity|].
      replace (fst (loop a)) with RejectedPin by (rewrite Hloop; reflexivity).
      split; [exact Hlen|]. split; [exists pre, p; auto|].
      split; [apply Forall_app; split; [exact Hlog | repeat constructor]|].
      exact Hindep.
    + exists (pre ++ [p]), rest,
        (pin_log (<[pinAmount := NUL]> buf) ++ granted_feedback).
      split; [rewrite Hps, <- app_assoc; reflexivity|].
      split; [exact Hall|].
      split; [rewrite Hloop, <- !app_assoc; reflexivity|].
      replace (fst (loop a)) with Accepted by (rewrite Hloop; reflexivity).
      split; [exact Hlen|]. split; [exists pre, p; auto|].
      split; [apply Forall_app; split; [exact Hlog | repeat constructor]|].
      exact Hindep.
Qed.

Lemma reads_follow_checks_app (startTime : Z) (l1 l2 : list Event) :
  reads_follow_checks startTime l1 ->
  reads_follow_checks startTime l2 ->
  reads_follow_checks startTime (l1 ++ l2).
Proof.
  intros [P1 Q1] [P2 Q2]. split.
  - intros i k H.
    destruct (decide (S i < length l1)%nat) as [Hlt | Hge].
    + rewrite lookup_app_l in H by lia.
      destruct (P1 i k H) as (t & Ht & Hw). exists t.
      rewrite lookup_app_l by lia. auto.
    + rewrite lookup_app_r in H by lia.
      destruct (decide (S i = length l1)) as [Heq | Hne].
      * exfalso. replace (S i - length l1)%nat with 0%nat in H by lia.
        exact (Q2 k H).
      * replace (S i - length l1)%nat with (S (i - length l1)) in H by lia.
        destruct (P2 _ k H) as (t & Ht & Hw). exists t.
        rewrite lookup_app_r by lia. auto.
  - intros k H. destruct l1 as [|e l1]; [exact (Q2 k H)|].
    exact (Q1 k H).
Qed.

Lemma reads_follow_checks_quiet (startTime : Z) (l : list Event) :
  Forall (fun e => is_key_read e = false) l ->
  reads_follow_checks startTime l.
Proof.
  intros Hq. rewrite Forall_forall in Hq. split.
  - intros i k H. apply list_elem_of_lookup_2, Hq in H. discriminate H.
  - intros k H. apply list_elem_of_lookup_2, Hq in H. discriminate H.
Qed.

Lemma reads_follow_checks_polls (startTime : Z) (pre : list Poll) :
  Forall (within startTime) pre ->
  reads_follow_checks startTime (flat_map poll_events pre).
Proof.
  induction 1 as [|p pre Hp Hpre IH].
  - apply reads_follow_checks_quiet. constructor.
  - cbn [flat_map]. apply reads_follow_checks_app; [|exact IH].
    unfold poll_events. apply reads_follow_checks_app.
    + split.
      * intros [|i] k H; [|discriminate H].
        exists (fst p). split; [reflexivity | exact Hp].
      * intros k H. discriminate H.
    + apply reads_follow_checks_quiet.
      destruct (Ascii.eqb (snd p) NO_KEY); repeat constructor.
Qed.

Lemma no_key_read_card_events (a : Attempt) :
  Forall (fun e => is_key_read e = false) (card_events a).
Proof. unfold card_events, scannedArray. simpl. repeat constructor. Qed.

(** C8. The deadline is checked at the head of every polling step and
    nowhere else.  In a PIN phase every keypad read comes directly after a
    clock read that passed the check.  After the anchor the events are a run
    of polls, each a clock read, then the keypad read, then the echo of a
    returned key; then either a clock read that fails the check, with fewer
    than four keys stored and no keypad read in that step, followed by the
    timeout feedback; or, the last poll having delivered the fourth key, the
    verdict, with no further clock or keypad read and no influence of the
    rest of the script. *)
Theorem deadline_polling_C8 (a : Attempt) (u : User) :
  resolved a = Some u ->
  (forall (i : nat) (k : ascii),
      snd (loop a) !! S i = Some (GetKey k) ->
      exists t, snd (loop a) !! i = Some (ReadMillis t)
                /\ (elapsed (startMillis a) t <= PIN_TIMEOUT)%Z)
  /\ (forall k : ascii, snd (loop a) !! 0%nat <> Some (GetKey k))
  /\ exists pre rest tail,
       polls a = pre ++ rest
       /\ Forall (fun p => (elapsed (startMillis a) (fst p) <= PIN_TIMEOUT)%Z) pre
       /\ snd (loop a) =
            card_events a ++ prompt_events u ++ [ReadMillis (startMillis a)]
            ++ flat_map
                 (fun p =>
                    ReadMillis (fst p) :: GetKey (snd p)
                    :: (if Ascii.eqb (snd p) NO_KEY then []
                        else [ LcdPrint "*"; Tone BUZZER_PIN 1500; Delay 50;
                               NoTone BUZZER_PIN ]))
                 pre
            ++ tail
       /\ match fst (loop a) with
          | TimedOut =>
              exists p rest',
                rest = p :: rest'
                /\ (PIN_TIMEOUT < elapsed (startMillis a) (fst p))%Z
                /\ (length (pressed pre) < pinAmount)%nat
                /\ tail =
                     ReadMillis (fst p)
                     :: [ SerialPrintln "Session timeout";
                          LcdClear; LcdPrint "SESSION EXPIRED";
                          Tone BUZZER_PIN 200; DigitalWrite RED_LED true;
                          Delay 800; NoTone BUZZER_PIN; Delay 1000;
                          DigitalWrite RED_LED false; LcdClear ]
          | Accepted | RejectedPin =>
              length (pressed pre) = pinAmount
              /\ (exists pre' p, pre = pre' ++ [p] /\ snd p <> NO_KEY)
              /\ Forall (fun e => is_polling e = false) tail
              /\ forall rest', loop (set_polls (pre ++ rest') a) = loop a
          | Pending =>
              rest = [] /\ tail = [] /\ (length (pressed pre) < pinAmount)%nat
          | _ => False
          end.
Proof.
  intros Hres.
  destruct (pin_phase_events a u Hres)
    as (pre & rest & tail & Hps & Hall & Htr & Hm).
  assert (Htail : Forall (fun e => is_key_read e = false) tail).
  { destruct (fst (loop a)); try contradiction.
    - destruct Hm as (p & rest' & _ & _ & _ & ->). repeat constructor.
    - destruct Hm as (_ & _ & Hq & _).
      eapply Forall_impl; [exact Hq|]. intros [] He; try reflexivity;
        discriminate He.
    - destruct Hm as (_ & _ & Hq & _).
      eapply Forall_impl; [exact Hq|]. intros [] He; try reflexivity;
        discriminate He.
    - destruct Hm as (_ & -> & _). constructor. }
  assert (Hfollow : reads_follow_checks (startMillis a) (snd (loop a))).
  { rewrite Htr.
    apply reads_follow_checks_app;
      [apply reads_follow_checks_quiet, no_key_read_card_events|].
    apply reads_follow_checks_app;
      [apply reads_follow_checks_quiet; repeat constructor|].
    apply reads_follow_checks_app;
      [apply reads_follow_checks_quiet; repeat constructor|].
    apply reads_follow_checks_app;
      [apply reads_follow_checks_polls, Hall
      | apply reads_follow_checks_quiet, Htail]. }
  destruct Hfollow as [Hpos Hfirst].
  split; [exact Hpos|]. split; [exact Hfirst|].
  exists pre, rest, tail.
  split; [exact Hps|]. split; [exact Hall|]. split; [exact Htr|].
  exact Hm.
Qed.

Lemma deadline_polling_C8_witness :
  snd (loop scenario4) !! 32%nat = Some (GetKey "B")
  /\ exists t, snd (loop scenario4) !! 31%nat = Some (ReadMillis t)
               /\ (elapsed (startMillis scenario4) t <= PIN_TIMEOUT)%Z.
Proof.
  split; [reflexivity|].
  exact (proj1 (deadline_polling_C8 scenario4 bob eq_refl) 31%nat "B"%char
           eq_refl).
Defined.

(** ** The board along an execution *)

Section BoardTraces.

Lemma replay_app (b : Board) (t1 t2 : list Event) :
  replay b (t1 ++ t2) = replay (replay b t1) t2.
Proof. apply fold_left_app. Qed.

Lemma apply_event_quiet (b : Board) (e : Event) :
  is_led_write e = false ->
  red (apply_event b e) = red b /\ green (apply_event b e) = green b.
Proof. destruct e; simpl; intros H; try discriminate; auto. Qed.

(** Events other than [digitalWrite] leave the indicators alone. *)
Lemma replay_quiet (tr : list Event) :
  forall b : Board,
    Forall (fun e => is_led_write e = false) tr ->
    red (replay b tr) = red b /\ green (replay b tr) = green b.
Proof.
  induction tr as [|e tr IH]; intros b Hq; [split; reflexivity|].
  inversion Hq as [|? ? He Htr]; subst. simpl.
  destruct (IH (apply_event b e) Htr) as [Hr Hg].
  destruct (apply_event_quiet b e He) as [Hr' Hg']. split; congruence.
Qed.

Lemma quiet_card_events (a : Attempt) :
  Forall (fun e => is_led_write e = false) (card_events a).
Proof. unfold card_events, scannedArray. simpl. repeat constructor. Qed.

Lemma quiet_prompt_events (u : User) :
  Forall (fun e => is_led_write e = false) (prompt_events u).
Proof. repeat constructor. Qed.

Lemma quiet_poll_events (ps : list Poll) :
  Forall (fun e => is_led_write e = false) (flat_map poll_events ps).
Proof.
  induction ps as [|p ps IH]; simpl; [constructor|].
  repeat constructor. apply Forall_app. split; [|exact IH].
  destruct (Ascii.eqb (snd p) NO_KEY); repeat constructor.
Qed.

Lemma quiet_pin_log (buf : list ascii) :
  Forall (fun e => is_led_write e = false) (pin_log buf).
Proof.
  unfold pin_log. apply Forall_app. split; [repeat constructor|].
  apply Forall_app. split; [|repeat constructor].
  induction (take pinAmount buf); simpl; repeat constructor; assumption.
Qed.

(** A pass is made of events that leave the indicators alone, followed by
    the feedback sequence of its outcome. *)
Lemma loop_shape (a : Attempt) :
  exists quiet,
    snd (loop a) = quiet ++ feedback (fst (loop a))
    /\ Forall (fun e => is_led_write e = false) quiet.
Proof.
  destruct (cardPresent a) eqn:Hc.
  2:{ exists [IsNewCardPresent false]. unfold loop. rewrite Hc. simpl.
      split; [reflexivity | repeat constructor]. }
  destruct (readOk a) eqn:Hr.
  2:{ exists [IsNewCardPresent true; SerialPrintln "Card detected";
              ReadCardSerial false].
      unfold loop. rewrite Hc, Hr. simpl.
      split; [reflexivity | repeat constructor]. }
  destruct (lookup (scannedArray a)) as [u|] eqn:Hl.
  2:{ exists (card_events a). rewrite (loop_unresolved a Hc Hr Hl).
      split; [reflexivity | apply quiet_card_events]. }
  assert (Hres : resolved a = Some u)
    by (unfold resolved; rewrite Hc, Hr; exact Hl).
  destruct (loop_pin_run a u Hres) as (r & tr & Hpin & Hrun).
  rewrite (loop_pin_phase a u Hres), Hpin. cbv zeta.
  assert (Qh : Forall (fun e => is_led_write e = false)
                 (card_events a ++ prompt_events u
                  ++ [ReadMillis (startMillis a)])).
  { apply Forall_app. split; [apply quiet_card_events|].
    apply Forall_app. split; [apply quiet_prompt_events | repeat constructor]. }
  set (head := card_events a ++ prompt_events u
               ++ [ReadMillis (startMillis a)]) in *.
  destruct Hrun as [Hall Hn | pre p rest Hps Hall Hp Hn | pre p rest Hps Hall Hk Hn];
    cbn [fst snd feedback].
  - exists (head ++ flat_map poll_events (polls a)).
    rewrite app_nil_r. split; [reflexivity|].
    apply Forall_app. split; [exact Qh | apply quiet_poll_events].
  - exists (head ++ flat_map poll_events pre ++ [ReadMillis (fst p)]).
    split; [rewrite <- !app_assoc; reflexivity|].
    apply Forall_app. split; [exact Qh|].
    apply Forall_app. split; [apply quiet_poll_events | repeat constructor].
  - set (ke := <[pinAmount := NUL]> _).
    exists (head ++ flat_map poll_events (pre ++ [p]) ++ pin_log ke).
    split.
    + destruct (negb _); cbn [fst snd feedback]; rewrite <- !app_assoc;
        reflexivity.
    + apply Forall_app. split; [exact Qh|].
      apply Forall_app. split; [apply quiet_poll_events | apply quiet_pin_log].
Qed.

(** Inside a feedback sequence started with both indicators off, at most
    one indicator is on, and it is the one of the sequence's outcome. *)
Lemma feedback_leds (o : Outcome) (b : Board) (m : nat) :
  leds_off b ->
  let b' := replay b (take m (feedback o)) in
  (red b' && green b' = false)
  /\ (green b' = true -> o = Accepted)
  /\ (red b' = true -> o = RejectedCard \/ o = TimedOut \/ o = RejectedPin).
Proof.
  intros [Hr Hg]. destruct b as [r g z d]. simpl in Hr, Hg. subst.
  destruct o; cbn [feedback];
    walk m ltac:(cbn; repeat split; first [reflexivity | discriminate | tauto]).
Qed.

(** A feedback sequence leaves both indicators off; the sequence of a
    terminal outcome also leaves the buzzer silent and the display clear. *)
Lemma feedback_final (o : Outcome) (b : Board) :
  leds_off b ->
  leds_off (replay b (feedback o))
  /\ (is_terminal o = true ->
      buzzer (replay b (feedback o)) = None
      /\ display (replay b (feedback o)) = []).
Proof.
  intros [Hr Hg]. destruct b as [r g z d]. simpl in Hr, Hg. subst.
  destruct o; cbn; repeat split; first [reflexivity | discriminate].
Qed.

Lemma loop_leds_off (a : Attempt) (b : Board) :
  leds_off b -> leds_off (replay b (snd (loop a))).
Proof.
  intros Hb. destruct (loop_shape a) as (quiet & -> & Hq).
  rewrite replay_app. apply feedback_final.
  destruct Hb as [Hr Hg]. destruct (replay_quiet quiet b Hq) as [Hr' Hg'].
  split; congruence.
Qed.

(** The indicators inside one pass. *)
Lemma loop_leds (a : Attempt) (b : Board) (m : nat) :
  leds_off b ->
  let b' := replay b (take m (snd (loop a))) in
  (red b' && green b' = false)
  /\ (green b' = true -> fst (loop a) = Accepted)
  /\ (red b' = true ->
      fst (loop a) = RejectedCard \/ fst (loop a) = TimedOut
      \/ fst (loop a) = RejectedPin).
Proof.
  intros Hb. destruct (loop_shape a) as (quiet & -> & Hq).
  rewrite take_app, replay_app.
  apply feedback_leds.
  assert (Hq' : Forall (fun e => is_led_write e = false) (take m quiet))
    by (apply Forall_take; exact Hq).
  destruct Hb as [Hr Hg]. destruct (replay_quiet _ b Hq') as [Hr' Hg'].
  split; congruence.
Qed.

Lemma passes_leds_off (atts : list Attempt) :
  forall b : Board,
    leds_off b ->
    leds_off (replay b (flat_map (fun a => snd (loop a)) atts)).
Proof.
  induction atts as [|a atts IH]; intros b Hb; [exact Hb|].
  simpl. rewrite replay_app. apply IH, loop_leds_off, Hb.
Qed.

Lemma setup_leds_off : leds_off (replay power_on setup).
Proof. split; reflexivity. Qed.

(** Both indicators are off whenever [loop()] is about to be called. *)
Lemma execution_leds_off (atts : list Attempt) :
  leds_off (replay power_on (execution atts)).
Proof.
  unfold execution. rewrite replay_app.
  apply passes_leds_off, setup_leds_off.
Qed.

Lemma passes_leds (atts : list Attempt) :
  forall (b : Board) (n : nat),
    leds_off b ->
    let b' := replay b (take n (flat_map (fun a => snd (loop a)) atts)) in
    red b' && green b' = false.
Proof.
  induction atts as [|a atts IH]; intros b n [Hr Hg].
  - simpl. rewrite take_nil. simpl. rewrite Hr. reflexivity.
  - cbn [flat_map]. cbv zeta. rewrite take_app, replay_app.
    destruct (decide (n <= length (snd (loop a)))%nat) as [Hle | Hgt].
    + replace (n - length (snd (loop a)))%nat with 0%nat by lia.
      rewrite take_0. simpl. apply (loop_leds a b n). split; assumption.
    + rewrite take_ge by lia. apply IH, loop_leds_off. split; assumption.
Qed.

Lemma setup_leds (n : nat) :
  let b := replay power_on (take n setup) in
  leds_off b.
Proof.
  cbv zeta. assert (Hq : Forall (fun e => is_led_write e = false) (take n setup))
    by (apply Forall_take; repeat constructor).
  destruct (replay_quiet _ power_on Hq) as [Hr Hg]. split; assumption.
Qed.

End BoardTraces.

(** ** Properties of the feedback and of the session state *)

(** What the buffer held before the pass has no effect on it. *)
Lemma loop_garbage (g : nat -> ascii) (a : Attempt) :
  loop (set_garbage g a) = loop a.
Proof.
  destruct (cardPresent a) eqn:Hc.
  2:{ unfold loop. cbn [cardPresent set_garbage]. rewrite Hc. reflexivity. }
  destruct (readOk a) eqn:Hr.
  2:{ unfold loop. cbn [cardPresent readOk set_garbage]. rewrite Hc, Hr.
      reflexivity. }
  destruct (lookup (scannedArray a)) as [u|] eqn:Hl.
  2:{ rewrite (loop_unresolved a Hc Hr Hl).
      apply (loop_unresolved (set_garbage g a) Hc Hr Hl). }
  assert (Hres : resolved a = Some u)
    by (unfold resolved; rewrite Hc, Hr; exact Hl).
  assert (Hres' : resolved (set_garbage g a) = Some u) by exact Hres.
  rewrite (loop_pin_phase _ u Hres'), (loop_pin_phase a u Hres).
  destruct (loop_pin_run a u Hres) as (r & tr & Hpin & Hrun). rewrite Hpin.
  destruct Hrun as [Hall Hn | pre p rest Hps Hall Hp Hn | pre p rest Hps Hall Hk Hn].
  - rewrite (pin_run_entry (set_garbage g a) PinPending
               (flat_map poll_events (polls a)));
      [reflexivity | apply run_pending; assumption].
  - rewrite (pin_run_entry (set_garbage g a) PinTimedOut
               (flat_map poll_events pre ++ ReadMillis (fst p) :: timeout_feedback));
      [reflexivity | apply run_timed_out with (rest := rest); assumption].
  - rewrite (pin_run_entry (set_garbage g a)
               (PinDone (store 0 (pressed (pre ++ [p]))
                           (fresh_buffer (set_garbage g a))))
               (flat_map poll_events (pre ++ [p])));
      [|apply run_done with (rest := rest); assumption].
    assert (Hlen : length (pressed (pre ++ [p])) = pinAmount).
    { rewrite pressed_app, length_app. simpl.
      pose proof Hk as Hk'. apply no_key_eqb in Hk'. rewrite Hk'. simpl. lia. }
    cbv zeta.
    rewrite !(store_full (pressed (pre ++ [p]))) by (exact Hlen || reflexivity).
    reflexivity.
Qed.

(** C4. After the feedback sequence of any terminal outcome, reached from
    any earlier history of passes, [loop()] has returned with both
    indicators deasserted, the buzzer silent and the display cleared; that
    board is all the next pass starts from, and what the digit buffer held
    on entry never influences a pass. *)
Theorem terminal_returns_to_idle_C4 (hist : list Attempt) (a : Attempt) :
  is_terminal (fst (loop a)) = true ->
  let before := replay power_on (execution hist) in
  let after := replay before (snd (loop a)) in
  red after = false /\ green after = false
  /\ buzzer after = None /\ display after = []
  /\ replay power_on (execution (hist ++ [a])) = after
  /\ forall g, loop (set_garbage g a) = loop a.
Proof.
  intros Hterm before after.
  pose proof (execution_leds_off hist) as Hoff. fold before in Hoff.
  destruct (loop_shape a) as (quiet & Htr & Hq).
  assert (Hmid : leds_off (replay before quiet)).
  { destruct Hoff as [Hr Hg]. destruct (replay_quiet quiet before Hq) as [Hr' Hg'].
    split; congruence. }
  destruct (feedback_final (fst (loop a)) _ Hmid) as ([Hr Hg] & Hfin).
  destruct (Hfin Hterm) as [Hz Hd].
  assert (Hafter : after = replay (replay before quiet) (feedback (fst (loop a))))
    by (unfold after; rewrite Htr at 1; apply replay_app).
  rewrite Hafter. repeat split; try assumption.
  - rewrite <- Hafter. unfold after, before, execution.
    rewrite flat_map_app. cbn [flat_map]. rewrite app_nil_r, app_assoc.
    apply replay_app.
  - intros g. apply loop_garbage.
Qed.

Lemma terminal_returns_to_idle_C4_witness :
  let after := replay (replay power_on (execution [scenario3; scenario4]))
                 (snd (loop scenario1)) in
  red after = false /\ green after = false
  /\ buzzer after = None /\ display after = [].
Proof.
  pose proof (terminal_returns_to_idle_C4 [scenario3; scenario4] scenario1 eq_refl)
    as (Hr & Hg & Hz & Hd & _).
  repeat split; assumption.
Defined.

(** C10. In every state an execution passes through (any prefix of the
    events of [setup()] followed by any number of passes), the two
    indicators are not both on; inside a pass the positive indicator is on
    only if the pass ends [Accepted], the negative one only if it ends
    [RejectedCard], [TimedOut] or [RejectedPin]. *)
Theorem indicators_exclusive_C10 (atts : list Attempt) (n : nat) :
  (let b := replay power_on (take n (execution atts)) in
   red b && green b = false)
  /\ (forall (a : Attempt) (m : nat),
        let b := replay (replay power_on (execution atts))
                   (take m (snd (loop a))) in
        (green b = true -> fst (loop a) = Accepted)
        /\ (red b = true ->
            fst (loop a) = RejectedCard \/ fst (loop a) = TimedOut
            \/ fst (loop a) = RejectedPin)).
Proof.
  split.
  - cbv zeta. unfold execution. rewrite take_app, replay_app.
    destruct (decide (n <= length setup)%nat) as [Hle | Hgt].
    + replace (n - length setup)%nat with 0%nat by lia. rewrite take_0. simpl.
      destruct (setup_leds n) as [Hr _]. cbv zeta in Hr. rewrite Hr. reflexivity.
    + rewrite take_ge by lia. apply passes_leds, setup_leds_off.
  - intros a m.
    destruct (loop_leds a _ m (execution_leds_off atts)) as (_ & Hg & Hr).
    split; assumption.
Qed.

(** C7. When [lookup] finds no record for the scanned fingerprint, the pass
    ends [RejectedCard] with exactly this feedback: the display is cleared
    and shows "UNAUTHORIZED", a 200 Hz tone starts and the negative indicator
    is asserted, the tone lasts 800 ms, the rejection display is then held
    for 2.5 s (3.3 s on screen counting the tone), after which the indicator
    is deasserted and the display cleared. *)
Theorem rejected_card_feedback_C7 (a : Attempt) :
  cardPresent a = true -> readOk a = true ->
  lookup (scannedArray a) = None ->
  fst (loop a) = RejectedCard
  /\ snd (loop a) =
       card_events a
       ++ [ SerialPrintln "Unauthorized card";
            LcdClear; LcdPrint "UNAUTHORIZED";
            Tone BUZZER_PIN 200; DigitalWrite RED_LED true; Delay 800;
            NoTone BUZZER_PIN; Delay 2500; DigitalWrite RED_LED false;
            LcdClear ]
  /\ tone_time 200 (snd (loop a)) = 800%Z
  /\ hold_after_tone "UNAUTHORIZED" (snd (loop a)) = 2500%Z
  /\ hold_time "UNAUTHORIZED" (snd (loop a)) = 3300%Z
  /\ forall b : Board,
       red (replay b (snd (loop a))) = false
       /\ buzzer (replay b (snd (loop a))) = None
       /\ display (replay b (snd (loop a))) = [].
Proof.
  intros Hc Hr Hl. rewrite (loop_unresolved a Hc Hr Hl).
  repeat split.
Qed.

Lemma rejected_card_feedback_C7_witness :
  fst (loop scenario3) = RejectedCard
  /\ tone_time 200 (snd (loop scenario3)) = 800%Z
  /\ hold_after_tone "UNAUTHORIZED" (snd (loop scenario3)) = 2500%Z.
Proof.
  pose proof (rejected_card_feedback_C7 scenario3 eq_refl eq_refl eq_refl)
    as (Ho & _ & Ht & Hh & _).
  repeat split; assumption.
Defined.

(** C5. The table does not keep to the four-digit PINs its comments
    announce.  Every provisioned PIN is four keys of the 4x4 matrix stored
    with a terminating NUL, and Alice's is all digits; but Bob's is the four
    auxiliary letter keys A, B, C, D, none of them a digit, so not every
    stored PIN is made of digits, and a pass with Bob's card on which those
    keys are entered ends [Accepted]. *)
Theorem stored_pins_C5 :
  (forall u : User,
      u ∈ users ->
      pins u = stored_pin u ++ [NUL]
      /\ length (stored_pin u) = 4%nat
      /\ Forall (fun c => c ∈ key_set) (stored_pin u))
  /\ Forall (fun c => is_digit c = true) (stored_pin alice)
  /\ bob ∈ users
  /\ stored_pin bob = ["A"; "B"; "C"; "D"]%char
  /\ Forall (fun c => is_digit c = false) (stored_pin bob)
  /\ Forall (fun c => c ∈ auxiliary_keys) (stored_pin bob)
  /\ ~ (forall u : User,
          u ∈ users -> Forall (fun c => is_digit c = true) (stored_pin u))
  /\ (forall (a : Attempt) (buf : list ascii) (tr : list Event),
        resolved a = Some bob ->
        pin_entry a = (PinDone buf, tr) ->
        take pinAmount buf = ["A"; "B"; "C"; "D"]%char ->
        fst (loop a) = Accepted)
  /\ resolved bob_attempt = Some bob
  /\ pressed (polls bob_attempt) = ["A"; "B"; "C"; "D"]%char
  /\ fst (loop bob_attempt) = Accepted.
Proof.
  assert (Hbob : bob ∈ users)
    by apply list_elem_of_further, list_elem_of_here.
  split; [|split; [|split; [|split; [|split; [|split; [|split; [|split]]]]]]].
  - intros u. unfold users. rewrite !elem_of_cons, elem_of_nil.
    intros [-> | [-> | []]]; (split; [reflexivity | split; [reflexivity|]]);
      repeat constructor; apply list_elem_of_In; vm_compute; tauto.
  - repeat constructor.
  - exact Hbob.
  - reflexivity.
  - repeat constructor.
  - repeat constructor; apply list_elem_of_In; vm_compute; tauto.
  - intros H. specialize (H bob Hbob).
    inversion H as [|? ? Hc _]. vm_compute in Hc. discriminate Hc.
  - intros a buf tr Hres Hpin Hbuf.
    destruct (loop_verdict a bob buf tr Hres Hpin) as (_ & _ & _ & _ & Hout).
    rewrite Hout, Hbuf. reflexivity.
  - repeat split.
Qed.

(** ** The stages of a pass *)

Section Stages.

(** Where a pass can return: at the presence test, at the serial read, at
    the table search, or inside the PIN phase. *)
Lemma loop_cases (a : Attempt) :
  (cardPresent a = false /\ loop a = (NoCard, [IsNewCardPresent false]))
  \/ (cardPresent a = true /\ readOk a = false
      /\ loop a = (ReadFailed,
                   [IsNewCardPresent true; SerialPrintln "Card detected";
                    ReadCardSerial false]))
  \/ (cardPresent a = true /\ readOk a = true
      /\ lookup (scannedArray a) = None
      /\ loop a = (RejectedCard, card_events a ++ unauthorized_feedback))
  \/ (exists u, resolved a = Some u).
Proof.
  destruct (cardPresent a) eqn:Hc.
  2:{ left. split; [reflexivity|]. unfold loop. rewrite Hc. reflexivity. }
  destruct (readOk a) eqn:Hr.
  2:{ right; left. repeat split. unfold loop. rewrite Hc, Hr. reflexivity. }
  destruct (lookup (scannedArray a)) as [u|] eqn:Hl.
  - right; right; right. exists u. unfold resolved. rewrite Hc, Hr. exact Hl.
  - right; right; left. repeat split. apply loop_unresolved; assumption.
Qed.

(** A pass that resolved an identity ends in the PIN phase. *)
Lemma resolved_outcomes (a : Attempt) (u : User) :
  resolved a = Some u ->
  fst (loop a) = Pending \/ fst (loop a) = TimedOut
  \/ fst (loop a) = RejectedPin \/ fst (loop a) = Accepted.
Proof.
  intros Hres. rewrite (loop_pin_phase a u Hres). cbv zeta.
  destruct (pin_entry a) as [[buf| |] tr]; cbn [fst]; try tauto.
  destruct (negb _); cbn [fst]; tauto.
Qed.

Lemma prelude_card_events (a : Attempt) :
  Forall (fun e => is_prelude e = true) (card_events a).
Proof. unfold card_events, scannedArray. simpl. repeat constructor. Qed.

Lemma prelude_prompt_events (u : User) :
  u ∈ users -> Forall (fun e => is_prelude e = true) (prompt_events u).
Proof.
  unfold users. rewrite !elem_of_cons, elem_of_nil.
  intros [-> | [-> | []]]; repeat constructor.
Qed.

Lemma prelude_poll_events (ps : list Poll) :
  Forall (fun e => is_prelude e = true) (flat_map poll_events ps).
Proof.
  induction ps as [|p ps IH]; simpl; [constructor|].
  repeat constructor. apply Forall_app. split; [|exact IH].
  destruct (Ascii.eqb (snd p) NO_KEY); repeat constructor.
Qed.

Lemma prelude_flat_chars (l : list ascii) :
  Forall (fun e => is_prelude e = true)
    (flat_map (fun c => [SerialPrintChar c; SerialPrint " "]) l).
Proof. induction l; simpl; repeat constructor; assumption. Qed.

Lemma prelude_pin_log (buf : list ascii) :
  Forall (fun e => is_prelude e = true) (pin_log buf).
Proof.
  unfold pin_log. apply Forall_app. split; [repeat constructor|].
  apply Forall_app. split; [apply prelude_flat_chars | repeat constructor].
Qed.

(** A pass is a prelude followed by the feedback sequence of its outcome. *)
Lemma loop_prelude (a : Attempt) :
  exists quiet,
    snd (loop a) = quiet ++ feedback (fst (loop a))
    /\ Forall (fun e => is_prelude e = true) quiet.
Proof.
  destruct (loop_cases a) as [(_ & ->) | [(_ & _ & ->) | [(_ & _ & _ & ->) | (u & Hres)]]].
  - eexists. split; [symmetry; apply app_nil_r | repeat constructor].
  - eexists. split; [symmetry; apply app_nil_r | repeat constructor].
  - exists (card_events a). split; [reflexivity | apply prelude_card_events].
  - pose proof (resolved_inv a u Hres) as (_ & _ & _ & Hu).
    destruct (loop_pin_run a u Hres) as (r & tr & Hpin & Hrun).
    rewrite (loop_pin_phase a u Hres), Hpin. cbv zeta.
    assert (Qh : Forall (fun e => is_prelude e = true)
                   (card_events a ++ prompt_events u
                    ++ [ReadMillis (startMillis a)])).
    { apply Forall_app. split; [apply prelude_card_events|].
      apply Forall_app. split; [apply prelude_prompt_events, Hu | repeat constructor]. }
    set (head := card_events a ++ prompt_events u
                 ++ [ReadMillis (startMillis a)]) in *.
    destruct Hrun as [Hall Hn | pre p rest Hps Hall Hp Hn | pre p rest Hps Hall Hk Hn];
      cbn [fst snd feedback].
    + exists (head ++ flat_map poll_events (polls a)).
      rewrite app_nil_r. split; [reflexivity|].
      apply Forall_app. split; [exact Qh | apply prelude_poll_events].
    + exists (head ++ flat_map poll_events pre ++ [ReadMillis (fst p)]).
      split; [rewrite <- !app_assoc; reflexivity|].
      apply Forall_app. split; [exact Qh|].
      apply Forall_app. split; [apply prelude_poll_events | repeat constructor].
    + set (ke := <[pinAmount := NUL]> _).
      exists (head ++ flat_map poll_events (pre ++ [p]) ++ pin_log ke).
      split.
      * destruct (negb _); cbn [fst snd feedback]; rewrite <- !app_assoc;
          reflexivity.
      * apply Forall_app. split; [exact Qh|].
        apply Forall_app. split; [apply prelude_poll_events | apply prelude_pin_log].
Qed.

(** Measures that look for an outcome's feedback skip the prelude. *)
Lemma hold_time_prelude (msg : string) (quiet rest : list Event) :
  existsb (String.eqb msg) (prompt_messages ++ map name users) = false ->
  Forall (fun e => is_prelude e = true) quiet ->
  hold_time msg (quiet ++ rest) = hold_time msg rest.
Proof.
  intros Hmsg Hq. induction Hq as [|e quiet He Hq IH]; [reflexivity|].
  destruct e; cbn [app hold_time]; try exact IH.
  destruct (String.eqb_spec s msg) as [->|_]; [|exact IH].
  cbn [is_prelude] in He. congruence.
Qed.

Lemma tone_time_prelude (freq : Z) (quiet rest : list Event) :
  ((freq =? 1800) || (freq =? 1500))%Z = false ->
  Forall (fun e => is_prelude e = true) quiet ->
  tone_time freq (quiet ++ rest) = tone_time freq rest.
Proof.
  intros Hf Hq. induction Hq as [|e quiet He Hq IH]; [reflexivity|].
  destruct e; cbn [app tone_time]; try exact IH.
  destruct (Z.eqb_spec freq0 freq) as [->|_]; [|exact IH].
  cbn [is_prelude] in He. rewrite Hf, andb_false_r in He. discriminate.
Qed.

Lemma led_time_prelude (pin : Z) (quiet rest : list Event) :
  Forall (fun e => is_prelude e = true) quiet ->
  led_time pin (quiet ++ rest) = led_time pin rest.
Proof.
  unfold led_time. intros Hq. induction Hq as [|e quiet He Hq IH]; [reflexivity|].
  destruct e; cbn [app led_time_from]; try exact IH;
    try (simpl in He; discriminate He).
Qed.

End Stages.

(** ** Further properties of the outcomes *)

(** Four keys delivered on polls that pass the deadline check lead to the
    comparison with the stored PIN. *)
Lemma loop_four_keys (a : Attempt) (u : User) (pre rest : list Poll) :
  resolved a = Some u ->
  polls a = pre ++ rest ->
  Forall (within (startMillis a)) pre ->
  length (pressed pre) = pinAmount ->
  fst (loop a) =
    if bool_decide (pressed pre = stored_pin u) then Accepted else RejectedPin.
Proof.
  intros Hres Hps Hall Hn.
  destruct (pressed_last_key pre 3 Hn) as (pre' & p & post & -> & Hk & Hl & Hpost).
  assert (Hrun : pin_run (startMillis a) 0 (fresh_buffer a) (polls a)
                   (PinDone (store 0 (pressed (pre' ++ [p])) (fresh_buffer a)))
                   (flat_map poll_events (pre' ++ [p]))).
  { apply run_done with (rest := post ++ rest).
    - rewrite Hps, <- app_assoc. reflexivity.
    - apply Forall_app in Hall as [Hpre Hrest].
      apply Forall_app. split; [exact Hpre|].
      apply Forall_cons in Hrest as [Hp _]. apply Forall_singleton. exact Hp.
    - exact Hk.
    - rewrite Hl. reflexivity. }
  apply pin_run_entry in Hrun.
  destruct (loop_verdict a u _ _ Hres Hrun) as (Hent & _ & _ & _ & Hout).
  rewrite Hout, Hent, Hps, pressed_app.
  rewrite take_app_length'; [reflexivity | symmetry; exact Hn].
Qed.

(** A pass that reached the comparison did so on four keys that all passed
    the deadline check. *)
Lemma loop_compared_inv (a : Attempt) (u : User) :
  resolved a = Some u ->
  fst (loop a) = Accepted \/ fst (loop a) = RejectedPin ->
  exists pre rest,
    polls a = pre ++ rest
    /\ Forall (within (startMillis a)) pre
    /\ length (pressed pre) = pinAmount
    /\ pressed pre = take pinAmount (pressed (polls a)).
Proof.
  intros Hres Hout.
  destruct (loop_pin_run a u Hres) as (r & tr & Hpin & Hrun).
  rewrite (loop_pin_phase a u Hres), Hpin in Hout. cbv zeta in Hout.
  destruct Hrun as [Hall Hn | pre p rest Hps Hall Hp Hn | pre p rest Hps Hall Hk Hn].
  - destruct Hout; discriminate.
  - destruct Hout; discriminate.
  - assert (Hlen : length (pressed (pre ++ [p])) = pinAmount).
    { rewrite pressed_app, length_app. simpl.
      pose proof Hk as Hk'. apply no_key_eqb in Hk'. rewrite Hk'. simpl. lia. }
    exists (pre ++ [p]), rest. repeat split; try assumption.
    + rewrite Hps, <- app_assoc. reflexivity.
    + rewrite Hps. change (pre ++ p :: rest) with (pre ++ [p] ++ rest).
      rewrite app_assoc, (pressed_app (pre ++ [p])).
      rewrite take_app_length'; [reflexivity | symmetry; exact Hlen].
Qed.

(** X1. Access is granted exactly when both factors are there: the card
    resolves to a record, and the first four keys, all polled before the
    deadline passed, are that record's stored PIN.  A denial for the PIN
    means a resolved card and four timely keys that are not the stored PIN. *)
Theorem verdict_iff_both_factors (a : Attempt) :
  (fst (loop a) = Accepted <->
   exists u pre rest,
     resolved a = Some u /\ polls a = pre ++ rest
     /\ Forall (within (startMillis a)) pre
     /\ pressed pre = stored_pin u)
  /\ (fst (loop a) = RejectedPin <->
      exists u pre rest,
        resolved a = Some u /\ polls a = pre ++ rest
        /\ Forall (within (startMillis a)) pre
        /\ length (pressed pre) = pinAmount
        /\ pressed pre <> stored_pin u).
Proof.
  assert (Hinv : forall o, o = Accepted \/ o = RejectedPin ->
            fst (loop a) = o ->
            exists u pre rest,
              resolved a = Some u /\ polls a = pre ++ rest
              /\ Forall (within (startMillis a)) pre
              /\ length (pressed pre) = pinAmount
              /\ o = if bool_decide (pressed pre = stored_pin u)
                     then Accepted else RejectedPin).
  { intros o Ho Hout.
    destruct (loop_cases a)
      as [(_ & E) | [(_ & _ & E) | [(_ & _ & _ & E) | (u & Hres)]]];
      try (rewrite E in Hout; cbn [fst] in Hout; subst o;
           destruct Ho; discriminate).
    assert (Hc : fst (loop a) = Accepted \/ fst (loop a) = RejectedPin)
      by (rewrite Hout; exact Ho).
    destruct (loop_compared_inv a u Hres Hc) as (pre & rest & Hps & Hall & Hn & _).
    exists u, pre, rest. repeat split; try assumption.
    rewrite <- Hout. apply loop_four_keys with (rest := rest); assumption. }
  split; split.
  - intros Hout.
    destruct (Hinv Accepted (or_introl eq_refl) Hout)
      as (u & pre & rest & Hres & Hps & Hall & Hn & Hv).
    exists u, pre, rest. repeat split; try assumption.
    case_bool_decide; [assumption | discriminate].
  - intros (u & pre & rest & Hres & Hps & Hall & Hpin).
    assert (Hn : length (pressed pre) = pinAmount).
    { rewrite Hpin. apply users_pins. apply (resolved_inv a u Hres). }
    rewrite (loop_four_keys a u pre rest Hres Hps Hall Hn).
    rewrite bool_decide_eq_true_2; [reflexivity | exact Hpin].
  - intros Hout.
    destruct (Hinv RejectedPin (or_intror eq_refl) Hout)
      as (u & pre & rest & Hres & Hps & Hall & Hn & Hv).
    exists u, pre, rest. repeat split; try assumption.
    case_bool_decide; [discriminate | assumption].
  - intros (u & pre & rest & Hres & Hps & Hall & Hn & Hne).
    rewrite (loop_four_keys a u pre rest Hres Hps Hall Hn).
    rewrite bool_decide_eq_false_2; [reflexivity | exact Hne].
Qed.

(** What a waiting pass has seen of its poll script. *)
Lemma loop_pending_inv (a : Attempt) :
  fst (loop a) = Pending <->
  Forall (within (startMillis a)) (polls a)
  /\ (0 + length (pressed (polls a)) < pinAmount)%nat
  /\ exists u, resolved a = Some u.
Proof.
  split.
  - intros Hout.
    destruct (loop_cases a)
      as [(_ & E) | [(_ & _ & E) | [(_ & _ & _ & E) | (u & Hres)]]];
      try (rewrite E in Hout; discriminate).
    destruct (loop_pin_run a u Hres) as (r & tr & Hpin & Hrun).
    rewrite (loop_pin_phase a u Hres), Hpin in Hout. cbv zeta in Hout.
    destruct Hrun as [Hall Hn | pre p rest Hps Hall Hp Hn | pre p rest Hps Hall Hk Hn].
    + repeat split; try assumption. exists u. exact Hres.
    + discriminate.
    + destruct (negb _) in Hout; discriminate.
  - intros (Hall & Hn & u & Hres).
    assert (Hrun : pin_run (startMillis a) 0 (fresh_buffer a) (polls a)
                     PinPending (flat_map poll_events (polls a)))
      by (apply run_pending; assumption).
    apply pin_run_entry in Hrun.
    rewrite (loop_pin_phase a u Hres), Hrun. reflexivity.
Qed.

(** X2. A pass is still waiting in the PIN phase exactly when an identity is
    resolved, every poll so far passed the deadline check and fewer than four
    keys have arrived; so a poll beyond the deadline or a fourth key always
    ends it. *)
Theorem pending_iff (a : Attempt) :
  fst (loop a) = Pending <->
  (exists u, resolved a = Some u)
  /\ Forall (within (startMillis a)) (polls a)
  /\ (length (pressed (polls a)) < pinAmount)%nat.
Proof.
  rewrite loop_pending_inv. cbn [Nat.add]. tauto.
Qed.

(** X3. Once a pass has ended, nothing the keypad or the clock would answer
    later changes it: extending the poll script of a finished pass gives the
    same outcome and the same events. *)
Theorem finished_pass_ignores_later_polls (a : Attempt) (more : list Poll) :
  fst (loop a) <> Pending ->
  loop (set_polls (polls a ++ more) a) = loop a.
Proof.
  intros Hout.
  destruct (cardPresent a) eqn:Hc.
  2:{ unfold loop. cbn [cardPresent set_polls]. rewrite Hc. reflexivity. }
  destruct (readOk a) eqn:Hr.
  2:{ unfold loop. cbn [cardPresent readOk set_polls]. rewrite Hc, Hr.
      reflexivity. }
  destruct (lookup (scannedArray a)) as [u|] eqn:Hl.
  2:{ rewrite (loop_unresolved a Hc Hr Hl).
      apply (loop_unresolved (set_polls (polls a ++ more) a) Hc Hr Hl). }
  assert (Hres : resolved a = Some u)
    by (unfold resolved; rewrite Hc, Hr; exact Hl).
  assert (Hres' : resolved (set_polls (polls a ++ more) a) = Some u)
    by exact Hres.
  destruct (loop_pin_run a u Hres) as (r & tr & Hpin & Hrun).
  rewrite (loop_pin_phase a u Hres), Hpin in Hout. cbv zeta in Hout.
  rewrite (loop_pin_phase _ u Hres'), (loop_pin_phase a u Hres), Hpin.
  destruct Hrun as [Hall Hn | pre p rest Hps Hall Hp Hn | pre p rest Hps Hall Hk Hn].
  - exfalso. apply Hout. reflexivity.
  - rewrite (pin_run_entry (set_polls (polls a ++ more) a) PinTimedOut
               (flat_map poll_events pre ++ ReadMillis (fst p) :: timeout_feedback));
      [reflexivity|].
    apply run_timed_out with (rest := rest ++ more); try assumption.
    cbn [polls set_polls]. rewrite Hps, <- app_assoc. reflexivity.
  - rewrite (pin_run_entry (set_polls (polls a ++ more) a)
               (PinDone (store 0 (pressed (pre ++ [p])) (fresh_buffer a)))
               (flat_map poll_events (pre ++ [p])));
      [reflexivity|].
    apply (run_done (startMillis a) 0 (fresh_buffer a) (polls a ++ more)
             pre p (rest ++ more)); try assumption.
    rewrite Hps, <- app_assoc. reflexivity.
Qed.

Lemma finished_pass_ignores_later_polls_witness :
  loop (set_polls (polls scenario4 ++ [(8700%Z, "C"%char); (8800%Z, "D"%char)])
          scenario4)
  = loop scenario4.
Proof.
  apply finished_pass_ignores_later_polls. vm_compute. discriminate.
Defined.

(** X4. A pass ends [RejectedCard] exactly when the card was read and no
    record has the scanned fingerprint; such a pass never reads the clock or
    the keypad, whatever the poll script holds. *)
Theorem rejected_card_iff (a : Attempt) :
  (fst (loop a) = RejectedCard <->
   cardPresent a = true /\ readOk a = true
   /\ forall u, u ∈ users -> cardIDS u <> scannedArray a)
  /\ (fst (loop a) = RejectedCard ->
      Forall (fun e => is_polling e = false) (snd (loop a))
      /\ forall ps, loop (set_polls ps a) = loop a).
Proof.
  assert (Hnone : lookup (scannedArray a) = None <->
                  forall u, u ∈ users -> cardIDS u <> scannedArray a)
    by (apply lookup_None, scannedArray_length).
  split; [split|].
  - intros Hout.
    destruct (loop_cases a)
      as [(_ & E) | [(_ & _ & E) | [(Hc & Hr & Hl & _) | (u & Hres)]]];
      try (rewrite E in Hout; discriminate).
    + repeat split; try assumption. apply Hnone, Hl.
    + destruct (resolved_outcomes a u Hres) as [E | [E | [E | E]]];
        rewrite E in Hout; discriminate.
  - intros (Hc & Hr & Hall). apply Hnone in Hall.
    rewrite (loop_unresolved a Hc Hr Hall). reflexivity.
  - intros Hout.
    destruct (loop_cases a)
      as [(_ & E) | [(_ & _ & E) | [(Hc & Hr & Hl & E) | (u & Hres)]]];
      try (rewrite E in Hout; discriminate).
    + split.
      * rewrite E. cbn [snd]. unfold card_events, scannedArray. simpl.
        repeat constructor.
      * intros ps. rewrite E.
        apply (loop_unresolved (set_polls ps a) Hc Hr Hl).
    + destruct (resolved_outcomes a u Hres) as [E | [E | [E | E]]];
        rewrite E in Hout; discriminate.
Qed.

(** ** Further properties of the feedback *)

(** X5. A timed-out pass ends with exactly this feedback: "SESSION EXPIRED"
    on a cleared display, a 200 Hz tone with the negative indicator for
    800 ms, a further 1000 ms of hold, then indicator off and display
    cleared; the message is shown for 1800 ms in all. *)
Theorem timed_out_feedback (a : Attempt) :
  fst (loop a) = TimedOut ->
  (exists quiet,
      Forall (fun e => is_prelude e = true) quiet
      /\ snd (loop a) =
         quiet
         ++ [ SerialPrintln "Session timeout";
              LcdClear; LcdPrint "SESSION EXPIRED";
              Tone BUZZER_PIN 200; DigitalWrite RED_LED true; Delay 800;
              NoTone BUZZER_PIN; Delay 1000; DigitalWrite RED_LED false;
              LcdClear ])
  /\ hold_time "SESSION EXPIRED" (snd (loop a)) = 1800%Z
  /\ tone_time 200 (snd (loop a)) = 800%Z.
Proof.
  intros Hout. destruct (loop_prelude a) as (quiet & Htr & Hq).
  rewrite Hout in Htr. cbn [feedback] in Htr. rewrite Htr.
  split; [exists quiet; split; [exact Hq | reflexivity]|].
  rewrite hold_time_prelude, tone_time_prelude by (assumption || reflexivity).
  split; reflexivity.
Qed.

Lemma timed_out_feedback_witness :
  hold_time "SESSION EXPIRED" (snd (loop scenario4)) = 1800%Z
  /\ tone_time 200 (snd (loop scenario4)) = 800%Z.
Proof.
  exact (proj2 (timed_out_feedback scenario4 eq_refl)).
Defined.

(** X6. A pass denied for its PIN ends with exactly this feedback: "ACCESS
    DENIED" on a cleared display, a 200 Hz tone with the negative indicator
    for 800 ms, the indicator held 700 ms more, then 1000 ms with the message
    alone before the display is cleared; the message is shown for 2500 ms. *)
Theorem rejected_pin_feedback (a : Attempt) :
  fst (loop a) = RejectedPin ->
  (exists quiet,
      Forall (fun e => is_prelude e = true) quiet
      /\ snd (loop a) =
         quiet
         ++ [ SerialPrintln "Incorrect PIN - Access denied";
              LcdClear; LcdPrint "ACCESS DENIED";
              Tone BUZZER_PIN 200; DigitalWrite RED_LED true; Delay 800;
              NoTone BUZZER_PIN; Delay 700; DigitalWrite RED_LED false;
              Delay 1000; LcdClear ])
  /\ hold_time "ACCESS DENIED" (snd (loop a)) = 2500%Z
  /\ tone_time 200 (snd (loop a)) = 800%Z.
Proof.
  intros Hout. destruct (loop_prelude a) as (quiet & Htr & Hq).
  rewrite Hout in Htr. cbn [feedback] in Htr. rewrite Htr.
  split; [exists quiet; split; [exact Hq | reflexivity]|].
  rewrite hold_time_prelude, tone_time_prelude by (assumption || reflexivity).
  split; reflexivity.
Qed.

Lemma rejected_pin_feedback_witness :
  hold_time "ACCESS DENIED" (snd (loop scenario2)) = 2500%Z
  /\ tone_time 200 (snd (loop scenario2)) = 800%Z.
Proof.
  exact (proj2 (rejected_pin_feedback scenario2 eq_refl)).
Defined.

(** X7. An accepted pass ends with exactly this feedback: "ACCESS GRANTED"
    on a cleared display, the positive indicator with a 1500 Hz tone for
    150 ms and a 2000 Hz tone for 150 ms, 1000 ms of hold, then indicator off
    and display cleared; the message is shown for 1300 ms. *)
Theorem accepted_feedback (a : Attempt) :
  fst (loop a) = Accepted ->
  (exists quiet,
      Forall (fun e => is_prelude e = true) quiet
      /\ snd (loop a) =
         quiet
         ++ [ SerialPrintln "Access granted";
              LcdClear; LcdPrint "ACCESS GRANTED";
              Tone BUZZER_PIN 1500; DigitalWrite GREEN_LED true; Delay 150;
              Tone BUZZER_PIN 2000; Delay 150; NoTone BUZZER_PIN; Delay 1000;
              DigitalWrite GREEN_LED false; LcdClear ])
  /\ hold_time "ACCESS GRANTED" (snd (loop a)) = 1300%Z
  /\ tone_time 2000 (snd (loop a)) = 150%Z.
Proof.
  intros Hout. destruct (loop_prelude a) as (quiet & Htr & Hq).
  rewrite Hout in Htr. cbn [feedback] in Htr. rewrite Htr.
  split; [exists quiet; split; [exact Hq | reflexivity]|].
  rewrite hold_time_prelude, tone_time_prelude by (assumption || reflexivity).
  split; reflexivity.
Qed.

Lemma accepted_feedback_witness :
  hold_time "ACCESS GRANTED" (snd (loop scenario1)) = 1300%Z
  /\ tone_time 2000 (snd (loop scenario1)) = 150%Z.
Proof.
  exact (proj2 (accepted_feedback scenario1 eq_refl)).
Defined.

(** X8. How long each indicator is lit in a pass depends on the outcome
    alone: the negative one 3300 ms for an unknown card, 1800 ms for a
    timeout, 1500 ms for a wrong PIN and never otherwise; the positive one
    1300 ms for an accepted pass and never otherwise. *)
Theorem indicator_on_time (a : Attempt) :
  led_time RED_LED (snd (loop a)) =
    match fst (loop a) with
    | RejectedCard => 3300
    | TimedOut => 1800
    | RejectedPin => 1500
    | _ => 0
    end%Z
  /\ led_time GREEN_LED (snd (loop a)) =
       match fst (loop a) with
       | Accepted => 1300
       | _ => 0
       end%Z.
Proof.
  destruct (loop_prelude a) as (quiet & -> & Hq).
  rewrite !led_time_prelude by assumption.
  destruct (fst (loop a)); split; reflexivity.
Qed.

Lemma replay_head (a : Attempt) (u : User) (b : Board) :
  replay b (card_events a ++ prompt_events u ++ [ReadMillis (startMillis a)])
  = mkBoard (red b) (green b) None ["Hello "; name u; "Enter Pin: "].
Proof. unfold card_events, scannedArray, prompt_events. reflexivity. Qed.

Lemma replay_polls (ps : list Poll) :
  forall b : Board,
    buzzer b = None ->
    replay b (flat_map poll_events ps)
    = mkBoard (red b) (green b) None
        (display b ++ replicate (length (pressed ps)) "*").
Proof.
  induction ps as [|p ps IH]; intros [r g z d] Hz; simpl in Hz; subst z.
  - simpl. rewrite app_nil_r. reflexivity.
  - cbn [flat_map pressed]. unfold poll_events at 1.
    destruct (Ascii.eqb (snd p) NO_KEY).
    + rewrite replay_app. simpl app. cbn [replay fold_left apply_event].
      apply (IH (mkBoard r g None d)). reflexivity.
    + rewrite replay_app. unfold key_feedback. simpl app.
      cbn [replay fold_left apply_event red green buzzer display].
      rewrite (IH (mkBoard r g None (d ++ ["*"]))) by reflexivity.
      cbn [red green display length replicate]. rewrite <- app_assoc.
      reflexivity.
Qed.

(** X9. While a pass waits in the PIN phase the display shows the greeting
    with the resolved name, the prompt, and one "*" per key received so far,
    never the keys themselves; the buzzer is silent and the indicators are
    as they were. *)
Theorem pin_prompt_display (a : Attempt) (u : User) (b : Board) :
  resolved a = Some u ->
  fst (loop a) = Pending ->
  replay b (snd (loop a))
  = mkBoard (red b) (green b) None
      (["Hello "; name u; "Enter Pin: "]
       ++ replicate (length (pressed (polls a))) "*").
Proof.
  intros Hres Hout.
  destruct (proj1 (loop_pending_inv a) Hout) as (Hall & Hn & _).
  assert (Hrun : pin_run (startMillis a) 0 (fresh_buffer a) (polls a)
                   PinPending (flat_map poll_events (polls a)))
    by (apply run_pending; assumption).
  apply pin_run_entry in Hrun.
  rewrite (loop_pin_phase a u Hres), Hrun. cbv zeta. cbn [snd].
  rewrite replay_app, replay_head, replay_polls by reflexivity.
  reflexivity.
Qed.

Lemma pin_prompt_display_witness :
  replay power_on (snd (loop long_card_attempt))
  = mkBoard false false None ["Hello "; "Alice"; "Enter Pin: "; "*"].
Proof.
  exact (pin_prompt_display long_card_attempt alice power_on eq_refl eq_refl).
Defined.

(** X10. Whenever a pass reaches the PIN comparison, granted or denied, it
    has printed the four entered keys in clear on the serial port, in order;
    in an accepted pass those are the stored PIN of the resolved record. *)
Theorem serial_log_shows_entered_pin (a : Attempt) :
  fst (loop a) = Accepted \/ fst (loop a) = RejectedPin ->
  (exists before after,
      snd (loop a) =
      before ++ pin_echo (take pinAmount (pressed (polls a))) ++ after)
  /\ (fst (loop a) = Accepted ->
      exists u, resolved a = Some u
                /\ take pinAmount (pressed (polls a)) = stored_pin u).
Proof.
  intros Hout.
  destruct (loop_cases a)
    as [(_ & E) | [(_ & _ & E) | [(_ & _ & _ & E) | (u & Hres)]]];
    try (rewrite E in Hout; destruct Hout; discriminate).
  destruct (loop_pin_run a u Hres) as (r & tr & Hpin & Hrun).
  pose proof (loop_pin_phase a u Hres) as Hloop.
  rewrite Hpin in Hloop. cbv zeta in Hloop.
  destruct r as [buf| |];
    try (rewrite Hloop in Hout; destruct Hout; discriminate).
  destruct (loop_verdict a u buf tr Hres Hpin) as (Hent & Hlen & _ & Hfull & Hv).
  rewrite Hfull in Hloop.
  assert (Hecho : pin_log (take pinAmount buf ++ [NUL])
                  = pin_echo (take pinAmount (pressed (polls a)))).
  { unfold pin_log, pin_echo.
    rewrite take_app_length' by (symmetry; exact Hlen).
    rewrite Hent. reflexivity. }
  rewrite Hecho in Hloop. split.
  - destruct (negb _) in Hloop; rewrite Hloop; cbn [snd].
    + exists ((card_events a ++ prompt_events u
               ++ [ReadMillis (startMillis a)]) ++ tr), denied_feedback.
      rewrite <- !app_assoc. reflexivity.
    + exists ((card_events a ++ prompt_events u
               ++ [ReadMillis (startMillis a)]) ++ tr), granted_feedback.
      rewrite <- !app_assoc. reflexivity.
  - intros Hacc. exists u. split; [exact Hres|].
    rewrite Hacc in Hv. rewrite <- Hent.
    case_bool_decide; [assumption | discriminate].
Qed.

Lemma serial_log_shows_entered_pin_witness :
  exists before after,
    snd (loop scenario2) =
    before ++ pin_echo ["1"; "2"; "3"; "5"]%char ++ after.
Proof.
  exact (proj1 (serial_log_shows_entered_pin scenario2 (or_intror eq_refl))).
Defined.

(** X11. Whatever the inputs, the only texts a pass writes to the display
    are the greeting, a provisioned name, the prompt, the mask character and
    the four outcome messages. *)
Theorem display_texts_fixed (a : Attempt) (s : string) :
  LcdPrint s ∈ snd (loop a) -> s ∈ known_messages.
Proof.
  destruct (loop_prelude a) as (quiet & -> & Hq).
  rewrite elem_of_app. intros [Hin | Hin].
  - rewrite Forall_forall in Hq. specialize (Hq _ Hin). cbn [is_prelude] in Hq.
    apply existsb_exists in Hq as (m & Hm & Heq).
    apply String.eqb_eq in Heq. subst m.
    apply list_elem_of_In. unfold known_messages.
    rewrite app_assoc. apply in_or_app. left. exact Hm.
  - apply list_elem_of_In. apply list_elem_of_In in Hin.
    destruct (fst (loop a)); cbn in Hin;
      repeat (destruct Hin as [Hin | Hin];
              [first [discriminate Hin
                     | inversion Hin; subst; vm_compute; tauto] |]);
      destruct Hin.
Qed.

Lemma display_texts_fixed_witness : "ACCESS GRANTED" ∈ known_messages.
Proof.
  apply (display_texts_fixed scenario1). apply list_elem_of_In.
  vm_compute. tauto.
Defined.

(** ** Further properties of the board, the clock and the table *)

Lemma pass_restores_board (a : Attempt) :
  fst (loop a) <> Pending ->
  replay power_on (snd (loop a)) = power_on.
Proof.
  intros Hout.
  assert (Hterm : is_terminal (fst (loop a)) = true ->
                  replay power_on (snd (loop a)) = power_on).
  { intros Ht. destruct (loop_shape a) as (quiet & Htr & Hq).
    rewrite Htr, replay_app.
    assert (Hmid : leds_off (replay power_on quiet)).
    { destruct (replay_quiet quiet power_on Hq) as [Hr Hg]. split; assumption. }
    destruct (feedback_final (fst (loop a)) _ Hmid) as ([Hr Hg] & Hfin).
    destruct (Hfin Ht) as [Hz Hd].
    destruct (replay _ (feedback _)) as [r g z d]. simpl in *. subst.
    reflexivity. }
  destruct (loop_cases a)
    as [(_ & E) | [(_ & _ & E) | [(_ & _ & _ & E) | (u & Hres)]]].
  - rewrite E. reflexivity.
  - rewrite E. reflexivity.
  - apply Hterm. rewrite E. reflexivity.
  - apply Hterm.
    destruct (resolved_outcomes a u Hres) as [E | [E | [E | E]]]; rewrite E;
      try reflexivity.
    exfalso. exact (Hout E).
Qed.

(** X12. After [setup()] and any number of finished passes, whatever their
    outcomes, the board is exactly as after reset: both indicators off, the
    buzzer silent, the display empty. *)
Theorem idle_board_invariant (hist : list Attempt) :
  Forall (fun a => fst (loop a) <> Pending) hist ->
  replay power_on (execution hist) = power_on.
Proof.
  intros Hall. unfold execution. rewrite replay_app.
  change (replay power_on setup) with power_on.
  induction Hall as [|a hist Ha Hall IH]; [reflexivity|].
  cbn [flat_map]. rewrite replay_app, (pass_restores_board a Ha). exact IH.
Qed.

Lemma idle_board_invariant_witness :
  replay power_on
    (execution [scenario1; no_card; scenario2; failed_read; scenario3; scenario4])
  = power_on.
Proof.
  apply idle_board_invariant.
  repeat constructor; vm_compute; discriminate.
Defined.

(** X13. The deadline test survives the wrap-around of the millisecond
    counter: for true times less than 2^32 ms apart, the test on the wrapped
    32-bit readings fires exactly when more than 7500 ms have really
    passed. *)
Theorem timeout_across_rollover (t0 t : Z) :
  (0 <= t - t0 < ULONG_MOD)%Z ->
  (timed_out (t0 mod ULONG_MOD) (t mod ULONG_MOD) = true
   <-> (PIN_TIMEOUT < t - t0)%Z)
  /\ elapsed (t0 mod ULONG_MOD) (t mod ULONG_MOD) = (t - t0)%Z.
Proof.
  intros H. rewrite timed_out_true, elapsed_exact by exact H.
  split; [reflexivity | reflexivity].
Qed.

Lemma timeout_across_rollover_witness :
  timed_out 4294967196 7401 = true
  /\ timed_out 4294967196 7400 = false
  /\ fst (loop rollover_attempt) = Accepted
  /\ fst (loop rollover_timeout) = TimedOut.
Proof.
  split; [|split; [reflexivity | split; reflexivity]].
  apply (proj1 (timeout_across_rollover 4294967196 (4294967296 + 7401)
                  ltac:(unfold ULONG_MOD; lia))).
  unfold PIN_TIMEOUT. lia.
Defined.

(** X14. The table search returns -1 or the index of a record of [users]
    whose four fingerprint bytes compared equal to the scanned ones, and no
    earlier record did; so [users[rowStorer]] is always read inside the
    table. *)
Theorem search_index_in_bounds (F : list Z) :
  find_row F = (-1)%Z
  \/ exists i u,
       find_row F = Z.of_nat i
       /\ (i < length users)%nat
       /\ users !! i = Some u
       /\ memcmp F (cardIDS u) 4 = 0%Z
       /\ forall j v, (j < i)%nat -> users !! j = Some v ->
                      memcmp F (cardIDS v) 4 <> 0%Z.
Proof.
  unfold find_row. cbn [scan_users].
  change (users !! 0%nat) with (Some alice).
  change (users !! 1%nat) with (Some bob). cbv iota beta.
  destruct (memcmp F (cardIDS alice) 4 =? 0)%Z eqn:E0.
  - apply Z.eqb_eq in E0. right. exists 0%nat, alice.
    repeat split; try (simpl; lia); try assumption.
  - apply Z.eqb_neq in E0.
    destruct (memcmp F (cardIDS bob) 4 =? 0)%Z eqn:E1.
    + apply Z.eqb_eq in E1. right. exists 1%nat, bob.
      repeat split; try (simpl; lia); try assumption.
      intros j v Hj Hv. assert (j = 0%nat) by lia. subst j.
      change (users !! 0%nat) with (Some alice) in Hv.
      inversion Hv; subst. exact E0.
    + left. reflexivity.
Qed.

(** Every pass that read a card starts with the events up to the hex dump. *)
Lemma loop_after_read (a : Attempt) :
  cardPresent a = true -> readOk a = true ->
  exists rest, snd (loop a) = card_events a ++ rest.
Proof.
  intros Hc Hr.
  destruct (loop_cases a)
    as [(Hc' & _) | [(_ & Hr' & _) | [(_ & _ & _ & E) | (u & Hres)]]];
    try congruence.
  - rewrite E. eexists. reflexivity.
  - rewrite (loop_pin_phase a u Hres). cbv zeta.
    destruct (pin_entry a) as [[buf| |] tr];
      [destruct (negb _)| |]; cbn [snd]; rewrite <- !app_assoc;
      eexists; reflexivity.
Qed.

(** X15. Every pass in which the serial read succeeds, for known and unknown
    cards alike, begins with the two log lines, a 1800 Hz beep of 100 ms and
    the hex dump of exactly four UID bytes, before anything that depends on
    the lookup. *)
Theorem read_beep_precedes_lookup (a : Attempt) :
  cardPresent a = true -> readOk a = true ->
  (exists rest,
      snd (loop a) =
      [ IsNewCardPresent true; SerialPrintln "Card detected";
        ReadCardSerial true; SerialPrintln "Card read successfully!";
        Tone BUZZER_PIN 1800; Delay 100; NoTone BUZZER_PIN ]
      ++ flat_map (fun b => [SerialPrintHex b; SerialPrint " "])
           (map (fun i => nth i (uidByte a) 0%Z) [0; 1; 2; 3]%nat)
      ++ SerialPrintln "" :: rest)
  /\ tone_time 1800 (snd (loop a)) = 100%Z.
Proof.
  intros Hc Hr. destruct (loop_after_read a Hc Hr) as (rest & ->).
  split.
  - exists rest. unfold card_events, scannedArray. rewrite <- !app_assoc.
    reflexivity.
  - reflexivity.
Qed.

Lemma read_beep_precedes_lookup_witness :
  tone_time 1800 (snd (loop scenario3)) = 100%Z.
Proof.
  exact (proj2 (read_beep_precedes_lookup scenario3 eq_refl eq_refl)).
Defined.

(** X16. Only the first four bytes of the reader's UID buffer reach the
    controller: replacing the reported size and every later byte leaves the
    whole pass, outcome and events, unchanged. *)
Theorem uid_tail_ignored (a : Attempt) (size : Z) (bytes : list Z) :
  (4 <= length (uidByte a))%nat ->
  take 4 bytes = take 4 (uidByte a) ->
  loop (set_uid size bytes a) = loop a.
Proof.
  intros Hlen Htake.
  assert (Hlen' : (4 <= length bytes)%nat).
  { assert (H4 : length (take 4 bytes) = 4%nat)
      by (rewrite Htake, length_take; lia).
    rewrite length_take in H4. lia. }
  assert (Hscan : scannedArray (set_uid size bytes a) = scannedArray a).
  { rewrite !scannedArray_take by assumption. exact Htake. }
  assert (Hcard : card_events (set_uid size bytes a) = card_events a)
    by (unfold card_events; rewrite Hscan; reflexivity).
  unfold loop. rewrite Hscan, Hcard.
  change (pin_entry (set_uid size bytes a)) with (pin_entry a).
  reflexivity.
Qed.

Lemma uid_tail_ignored_witness :
  loop (set_uid 7 long_card scenario1) = loop scenario1.
Proof.
  apply uid_tail_ignored; [simpl; lia | reflexivity].
Defined.
